(** * The spreadsheet evaluation engine (class [Spreadsheet])

    A shallow embedding of the in-memory formula engine: the two cell
    maps [cells] (committed) and [shadowCells] (staging), the evaluator
    [evaluateFormula], the propagation [evaluateAndUpdate], the
    dependency scans and the public operation [eval].

    - JavaScript numbers are IEEE 754 binary64 values: primitive floats.
    - JavaScript objects used as maps are association lists kept in
      insertion order, the order in which [for ... in] visits their keys
      (cell identifiers are never integer-like keys).
    - Exceptions and the mutation of [this] and of the shared
      [updatedCells] object are threaded by a state-and-exception monad.
    - The JavaScript call stack is the fuel of [evaluateAndUpdate]. *)

From Stdlib Require Import List String Bool Arith ZArith Lia Relations.
From Stdlib Require Import Floats.PrimFloat.
Import ListNotations.

Local Open Scope string_scope.
Local Open Scope list_scope.

(** ** Objects used as maps *)

Module Obj.
Section WithValues.
Context {V : Type}.

Definition t : Type := list (string * V).

(** [o[k]], [None] standing for [undefined]. *)
Fixpoint get (o : t) (k : string) : option V :=
match o with
| [] => None
| (k', v) :: rest => if String.eqb k k' then Some v else get rest k
end.

(** [Object.prototype.hasOwnProperty.call(o, k)]. *)
Definition has (o : t) (k : string) : bool :=
match get o k with Some _ => true | None => false end.

(** [o[k] = v]: an existing key keeps its place, a new key goes last. *)
Fixpoint set (o : t) (k : string) (v : V) : t :=
match o with
| [] => [(k, v)]
| (k', v') :: rest =>
    if String.eqb k k' then (k', v) :: rest else (k', v') :: set rest k v
end.

(** [delete o[k]]. *)
Fixpoint delete (o : t) (k : string) : t :=
match o with
| [] => []
| (k', v') :: rest =>
    if String.eqb k k' then rest else (k', v') :: delete rest k
end.

(** The keys in [for ... in] order. *)
Definition keys (o : t) : list string := map fst o.

(** Two objects holding the same entries, whatever the key order. *)
Definition same (o1 o2 : t) : Prop := forall k, get o1 k = get o2 k.
End WithValues.
Arguments t : clear implicits.
End Obj.

(** ** Numbers and the operator table [FNS] *)

Definition number : Type := float.

(** [ToNumber(undefined)] is [NaN]: that is what an arrow function sees
    for a parameter [Function.prototype.apply] found no argument for. *)
Definition arg (args : list number) (i : nat) : number := nth i args nan.

Definition Math_min (a b : number) : number :=
  if is_nan a || is_nan b then nan
  else if ltb a b then a
  else if ltb b a then b
  else if get_sign a then a else b.

Definition Math_max (a b : number) : number :=
  if is_nan a || is_nan b then nan
  else if ltb a b then b
  else if ltb b a then a
  else if get_sign a then b else a.

(** [FNS[operator]] for the own keys of [FNS]; [None] when
    [operator in FNS] is false.  [FNS[operator].apply(null, args)] is the
    returned function applied to [args].  An operator is never the name
    of a member of [Object.prototype], which [in] would find too. *)
Definition FNS (operator : string) : option (list number -> number) :=
  if String.eqb operator "+" then
    Some (fun args => add (arg args 0) (arg args 1))
  else if String.eqb operator "-" then
    Some (fun args =>
            match nth_error args 1 with
            | None => opp (arg args 0)
            | Some b => sub (arg args 0) b
            end)
  else if String.eqb operator "*" then
    Some (fun args => mul (arg args 0) (arg args 1))
  else if String.eqb operator "/" then
    Some (fun args => div (arg args 0) (arg args 1))
  else if String.eqb operator "min" then
    Some (fun args => Math_min (arg args 0) (arg args 1))
  else if String.eqb operator "max" then
    Some (fun args => Math_max (arg args 0) (arg args 1))
  else None.

(** ** Results, exceptions and syntax trees *)

(** [Result<T>] of cs544-js-utils: [okResult(val)] or
    [errResult(msg, code)]. *)
Inductive Result (A : Type) : Type :=
| okResult (val : A)
| errResult (msg : string) (code : string).
Arguments okResult {A} val.
Arguments errResult {A} msg code.

(** The two classes of exception the engine throws. *)
Inductive Exn : Type :=
| CircularReferenceError (message : string)
| Error (message : string).

(** How a call ends: it returns, it throws, or it is still deeper in
    the recursion than the fuel allows. *)
Inductive Outcome (A : Type) : Type :=
| Return (a : A)
| Throw (e : Exn)
| OutOfFuel.
Arguments Return {A} a.
Arguments Throw {A} e.
Arguments OutOfFuel {A}.

(** [Ast] of the expression parser, over the parser's [CellRef] class.
    [Other] stands for a value whose [kind] is none of the three. *)
#[warnings="-register-all"]
Inductive Ast (CellRef : Type) : Type :=
| Num (value : number)
| Ref (value : CellRef)
| App (fn : string) (kids : list (Ast CellRef))
| Other (kind : string).
Arguments Num {CellRef} value.
Arguments Ref {CellRef} value.
Arguments App {CellRef} fn kids.
Arguments Other {CellRef} kind.

(** What the engine imports from [./expr-parser.js].  The module is not
    part of the engine: it is taken as an interface.
    - [parseRef] is [CellRef.parseRef], which returns on the
      identifier of a cell that has a formula;
    - [toText v base] is [ast.toText(base)] for a [ref] node holding [v];
    - [parse expr cellId] is [None] when the call throws. *)
Class ExprParser : Type := {
  CellRef : Type;
  parseRef : string -> CellRef;
  toText : CellRef -> CellRef -> string;
  parse : string -> string -> option (Result (Ast CellRef))
}.

Definition Updates : Type := Obj.t number.

(** ** The engine *)

Section Engine.
Context {P : ExprParser}.

Definition Cells : Type := Obj.t (Ast CellRef).

Record Spreadsheet : Type := mkSpreadsheet {
  name : string;
  cells : Cells;
  shadowCells : Cells
}.

(** [new Spreadsheet(name)]. *)
Definition newSpreadsheet (name : string) : Spreadsheet :=
  {| name := name; cells := []; shadowCells := [] |}.

(** The mutable state a call of the evaluator works on: the
    spreadsheet object and the [updatedCells] object of the running
    [eval]. *)
Record Heap : Type := mkHeap {
  this : Spreadsheet;
  updatedCells : Updates
}.

Definition M (A : Type) : Type := Heap -> Outcome A * Heap.

Definition ret {A} (a : A) : M A := fun h => (Return a, h).

Definition throw {A} (e : Exn) : M A := fun h => (Throw e, h).

Definition bind {A B} (m : M A) (k : A -> M B) : M B :=
  fun h =>
    match m h with
    | (Return a, h') => k a h'
    | (Throw e, h') => (Throw e, h')
    | (OutOfFuel, h') => (OutOfFuel, h')
    end.

Notation "x <- m ;; k" := (bind m (fun x => k))
  (at level 100, m at next level, right associativity).

(** [Array.prototype.map] with an effectful callback: left to right,
    an exception ends it. *)
Definition mapM {A B} (f : A -> M B) : list A -> M (list B) :=
  fix go (l : list A) : M (list B) :=
    match l with
    | [] => ret []
    | a :: rest => b <- f a ;; bs <- go rest ;; ret (b :: bs)
    end.

(** [recoverCell]: copy the committed tree of [cellId] back to
    staging, when there is one. *)
Definition recoverCell (ss : Spreadsheet) (cellId : string) : Spreadsheet :=
  match Obj.get (cells ss) cellId with
  | Some ast =>
      {| name := name ss; cells := cells ss;
         shadowCells := Obj.set (shadowCells ss) cellId ast |}
  | None => ss
  end.

(** [coverCell]: copy the staged tree of [cellId] to the committed
    map, when there is one. *)
Definition coverCell (ss : Spreadsheet) (cellId : string) : Spreadsheet :=
  match Obj.get (shadowCells ss) cellId with
  | Some ast =>
      {| name := name ss; cells := Obj.set (cells ss) cellId ast;
         shadowCells := shadowCells ss |}
  | None => ss
  end.

(** The cell a [ref] node of the formula of [cellId] points to. *)
Definition target (value : CellRef) (cellId : string) : string :=
  toText value (parseRef cellId).

(** [isDependent]: some [ref] node of [ast], read in [cellId],
    points to [baseCellId]. *)
Fixpoint isDependent (ast : Ast CellRef) (cellId baseCellId : string) : bool :=
  match ast with
  | Ref value => String.eqb (target value cellId) baseCellId
  | App _ kids =>
      existsb (fun operand => isDependent operand cellId baseCellId) kids
  | _ => false
  end.

(** [findDependentCells]: the staged cells whose formula points to
    [baseCellId], in key order. *)
Definition findDependentCells (ss : Spreadsheet) (baseCellId : string)
  : list string :=
  map fst
    (filter (fun entry => isDependent (snd entry) (fst entry) baseCellId)
       (shadowCells ss)).

(** [findDependentCells2]: the staged cells other than [baseCellId]
    whose formula does not point to [baseCellId], in key order. *)
Definition findDependentCells2 (ss : Spreadsheet) (baseCellId : string)
  : list string :=
  map fst
    (filter (fun entry =>
               negb (String.eqb (fst entry) baseCellId)
               && negb (isDependent (snd entry) (fst entry) baseCellId))
       (shadowCells ss)).

Section Formula.
(** The call back into [evaluateAndUpdate], applied to the cell and
    the parent cell. *)
Variable evaluateAndUpdate_ : string -> string -> M number.

(** [evaluateFormula(basecellId, ast, updatedCells, parentCellId)]. *)
Fixpoint evaluateFormula (basecellId : string) (ast : Ast CellRef)
  (parentCellId : string) : M number :=
  match ast with
  | Num value => ret value
  | Ref value =>
      let cellId := target value basecellId in
      if String.eqb cellId parentCellId then
        fun h =>
          (Throw (CircularReferenceError
                    ("Circular reference found for cell '" ++ cellId ++ "'")),
           {| this := recoverCell (this h) parentCellId;
              updatedCells := updatedCells h |})
      else
        fun h =>
          if negb (Obj.has (shadowCells (this h)) cellId) then (Return zero, h)
          else
            match Obj.get (updatedCells h) cellId with
            | Some v => (Return v, h)
            | None => evaluateAndUpdate_ cellId parentCellId h
            end
  | App fn kids =>
      args <- mapM (fun operand =>
                      evaluateFormula basecellId operand parentCellId) kids ;;
      match FNS fn with
      | Some f => ret (f args)
      | None => throw (Error ("Unknown operator '" ++ fn ++ "'"))
      end
  | Other kind => throw (Error ("Invalid ast type '" ++ kind ++ "'"))
  end.

(** The loop of [evaluateAndUpdate] over the dependents; the
    parameter [parentCellId] is assigned in its body. *)
Fixpoint forDependents (cellId : string) (dependents : list string)
  (parentCellId : string) : M unit :=
  match dependents with
  | [] => ret tt
  | dependent :: rest =>
      if String.eqb cellId parentCellId && negb (String.eqb cellId dependent)
      then
        _ <- evaluateAndUpdate_ dependent dependent ;;
        forDependents cellId rest dependent
      else forDependents cellId rest parentCellId
  end.
End Formula.

(** [evaluateAndUpdate(cellId, updatedCells, parentCellId)], at most
    [fuel] calls deep. *)
Fixpoint evaluateAndUpdate (fuel : nat) (cellId parentCellId : string)
  : M number :=
  match fuel with
  | O => fun h => (OutOfFuel, h)
  | S fuel' =>
      fun h =>
        match Obj.get (shadowCells (this h)) cellId with
        | None =>
            (Throw (Error ("Cell '" ++ cellId ++ "' does not exist")), h)
        | Some cell =>
            (result <- evaluateFormula (evaluateAndUpdate fuel')
                         cellId cell parentCellId ;;
             fun h1 =>
               (_ <- forDependents (evaluateAndUpdate fuel') cellId
                       (findDependentCells (this h1) cellId) parentCellId ;;
                ret result)
                 {| this := this h1;
                    updatedCells := Obj.set (updatedCells h1) cellId result |})
              h
        end
  end.

(** [eval(cellId, expr)]: the value the promise settles to and the
    spreadsheet object afterwards. *)
Definition eval (fuel : nat) (cellId expr : string) (ss : Spreadsheet)
  : Outcome (Result Updates) * Spreadsheet :=
  match parse expr cellId with
  | None => (Return (errResult "SYNTAX error ..." "SYNTAX"), ss)
  | Some (errResult _ _) =>
      (Return (errResult "SYNTAX error ..." "SYNTAX"), ss)
  | Some (okResult val) =>
      let staged :=
        {| name := name ss; cells := cells ss;
           shadowCells := Obj.set (shadowCells ss) cellId val |} in
      match evaluateAndUpdate fuel cellId cellId
              {| this := staged; updatedCells := [] |} with
      | (Throw (CircularReferenceError _), h) =>
          (Return (errResult "cyclic dependency ..." "CIRCULAR_REF"), this h)
      | (Throw e, h) => (Throw e, this h)
      | (OutOfFuel, h) => (OutOfFuel, this h)
      | (Return _, h) =>
          let dependents := findDependentCells2 (this h) cellId in
          let updatedCells :=
            fold_left Obj.delete dependents (updatedCells h) in
          (Return (okResult updatedCells), coverCell (this h) cellId)
      end
  end.
End Engine.

(** ** A parser to run the engine on

    References are absolute cell names in this instance and the
    expression texts the scenarios use are listed. *)
Module Sample.
Definition ref (cell : string) : Ast string := Ref cell.

Definition parseText (expr cellId : string) : option (Result (Ast string)) :=
  if String.eqb expr "5" then Some (okResult (Num 5%float))
  else if String.eqb expr "7" then Some (okResult (Num 7%float))
  else if String.eqb expr "a1" then Some (okResult (ref "a1"))
  else if String.eqb expr "b1" then Some (okResult (ref "b1"))
  else if String.eqb expr "c1" then Some (okResult (ref "c1"))
  else if String.eqb expr "a1+1" then
    Some (okResult (App "+" [ref "a1"; Num 1%float]))
  else if String.eqb expr "b1+1" then
    Some (okResult (App "+" [ref "b1"; Num 1%float]))
  else if String.eqb expr "-(3)" then Some (okResult (App "-" [Num 3%float]))
  else if String.eqb expr "5-2" then
    Some (okResult (App "-" [Num 5%float; Num 2%float]))
  else if String.eqb expr "2^3" then
    Some (okResult (App "^" [Num 2%float; Num 3%float]))
  else if String.eqb expr "(" then None
  else Some (errResult "syntax error" "SYNTAX").

#[export] Instance parser : ExprParser := {|
  CellRef := string;
  parseRef := fun cellId => cellId;
  toText := fun value _ => value;
  parse := parseText
|}.

Definition empty : Spreadsheet := newSpreadsheet "ss".

(** The heap of the edit of a1 to b1, once b1 has been set to c1 and
    c1 to a1. *)
Definition round_trip : Heap :=
  {| this :=
       {| name := "ss";
          cells := [("b1", ref "c1"); ("c1", ref "a1")];
          shadowCells :=
            [("b1", ref "c1"); ("c1", ref "a1"); ("a1", ref "b1")] |};
     updatedCells := [] |}.

(** The heap of the edit of b1 to a1, once the edit of a1 to a1+1 has
    been rejected on an empty spreadsheet. *)
Definition self_loop : Heap :=
  {| this :=
       {| name := "ss"; cells := [];
          shadowCells :=
            [("a1", App "+" [ref "a1"; Num 1%float]); ("b1", ref "a1")] |};
     updatedCells := [] |}.
End Sample.

(** ** Predicates on runs of the engine *)

Section Predicates.
Context {P : ExprParser}.

(** [m2] ends as [m1] does wherever [m1] ends within its fuel. *)
Definition mrefines {A} (m1 m2 : M A) : Prop :=
  forall h o h', m1 h = (o, h') -> o <> OutOfFuel -> m2 h = (o, h').

(** From [h] to [h1] the spreadsheet object is untouched and no
    memoized value is lost. *)
Definition grows (h h1 : Heap) : Prop :=
  this h1 = this h /\
  forall k, Obj.has (updatedCells h) k = true ->
            Obj.has (updatedCells h1) k = true.

(** A run from [h]: only a circular-reference exception comes with a
    change of the spreadsheet object, the one [recoverCell] makes. *)
Definition framed {A} (h : Heap) (r : Outcome A * Heap) : Prop :=
  match r with
  | (Throw (CircularReferenceError _), h') =>
      exists p, this h' = recoverCell (this h) p
  | (_, h') => grows h h'
  end.

Definition mframed {A} (m : M A) : Prop := forall h, framed h (m h).

(** The claim C4, with the parent cell of the recursive call left
    open: [newParent base p] is the parent cell given to the
    evaluation of the target cell by a [ref] node met in the formula
    of [base] under the parent cell [p]. *)
Definition ref_descends_with (newParent : string -> string -> string) : Prop :=
  forall fuel base value p h cell,
    target value base <> p ->
    Obj.get (shadowCells (this h)) (target value base) = Some cell ->
    Obj.get (updatedCells h) (target value base) = None ->
    evaluateFormula (evaluateAndUpdate (S fuel)) base (Ref value) p h =
      match evaluateFormula (evaluateAndUpdate fuel)
              (target value base) cell (newParent base p) h with
      | (Return result, h1) =>
          (Return result,
           {| this := this h1;
              updatedCells :=
                Obj.set (updatedCells h1) (target value base) result |})
      | (Throw e, h1) => (Throw e, h1)
      | (OutOfFuel, h1) => (OutOfFuel, h1)
      end.

(** A tree the evaluator can go through without an [Error]: every
    operator is a key of [FNS] and every node is of a known kind. *)
Fixpoint evaluable (ast : Ast CellRef) : bool :=
  match ast with
  | Num _ | Ref _ => true
  | App fn kids =>
      match FNS fn with Some _ => forallb evaluable kids | None => false end
  | Other _ => false
  end.

(** Some staged formula is not evaluable. *)
Definition fault_staged (ss : Spreadsheet) : Prop :=
  exists y ast, Obj.get (shadowCells ss) y = Some ast /\ evaluable ast = false.

Definition committed_evaluable (ss : Spreadsheet) : Prop :=
  forall x ast, Obj.get (cells ss) x = Some ast -> evaluable ast = true.

(** An [Error] thrown by [m] comes with [extra] or from a staged
    formula that is not evaluable. *)
Definition merr {A} (m : M A) (extra : Prop) : Prop :=
  forall h msg h', m h = (Throw (Error msg), h') ->
                   extra \/ fault_staged (this h).

(** [eval] ends, by a result or by an exception, within some depth of
    calls. *)
Definition terminates (cellId expr : string) (ss : Spreadsheet) : Prop :=
  exists fuel, fst (eval fuel cellId expr ss) <> OutOfFuel.

(** The references between the cells of [o] go down a rank below
    [N]: [o] holds no reference cycle. *)
Definition ranked (rank : string -> nat) (N : nat) (o : Cells) : Prop :=
  (forall x ast y,
      Obj.get o x = Some ast -> isDependent ast x y = true ->
      Obj.has o y = true -> rank y < rank x) /\
  (forall x, Obj.has o x = true -> rank x < N).

(** In a call under the parent cell [p], the edited cell is the
    parent cell or is memoized. *)
Definition inv (staging : Cells) (c p : string) (h : Heap) : Prop :=
  shadowCells (this h) = staging /\
  (c = p \/ Obj.has (updatedCells h) c = true).

Definition mlive {A} (staging : Cells) (c p : string) (m : M A) : Prop :=
  forall h, inv staging c p h -> fst (m h) <> OutOfFuel.

(** Every memoized cell has its staged references memoized, and
    none of them is the edited cell. *)
Definition closedh (staging : Cells) (c : string) (h : Heap) : Prop :=
  forall x ast y,
    Obj.has (updatedCells h) x = true -> Obj.get staging x = Some ast ->
    isDependent ast x y = true -> Obj.has staging y = true ->
    Obj.has (updatedCells h) y = true /\ y <> c.

(** The staged references of [ast], read in [base], are memoized
    and none of them is the edited cell. *)
Definition resolved (staging : Cells) (c : string) (ast : Ast CellRef)
  (base : string) (h : Heap) : Prop :=
  forall y, isDependent ast base y = true -> Obj.has staging y = true ->
            Obj.has (updatedCells h) y = true /\ y <> c.

(** Runs of [m] that return keep [I]. *)
Definition mkeeps {A} (I : Heap -> Prop) (m : M A) : Prop :=
  forall h a h', I h -> m h = (Return a, h') -> I h'.

(** The memo has each key once, and only staged cells for keys. *)
Definition memo_staged (h : Heap) : Prop :=
  NoDup (Obj.keys (updatedCells h)) /\
  forall k, Obj.has (updatedCells h) k = true ->
            Obj.has (shadowCells (this h)) k = true.
End Predicates.

(** Running the engine on trees whose references are known by the
    cell they point to. *)
Ltac run_with tac :=
  repeat first [progress (lazy -[target]) | progress tac].

(** ** References between cells *)

Section References.
Context {P : ExprParser}.

(** The formula of [x] in [o] refers to [y], a cell of [o]. *)
Definition refers (o : Cells) (x y : string) : Prop :=
  exists ast,
    Obj.get o x = Some ast /\ isDependent ast x y = true /\
    Obj.has o y = true.


(** The spreadsheet [eval] works on once the new formula is staged. *)
Definition stage (ss : Spreadsheet) (cellId : string) (val : Ast CellRef)
  : Spreadsheet :=
  {| name := name ss; cells := cells ss;
     shadowCells := Obj.set (shadowCells ss) cellId val |}.

(** A sequence of calls of [eval], each with its fuel, its cell and its
    expression text: the spreadsheet after the last one. *)
Definition runEdits (edits : list (nat * string * string)) (ss : Spreadsheet)
  : Spreadsheet :=
  fold_left
    (fun ss edit =>
       snd (eval (fst (fst edit)) (snd (fst edit)) (snd edit) ss))
    edits ss.

(** Two heaps with the same staging map and the same memo. *)
Definition agree (h1 h2 : Heap) : Prop :=
  shadowCells (this h1) = shadowCells (this h2) /\
  updatedCells h1 = updatedCells h2.

(** Two runs that end the same way: with the same value and heaps that
    agree, with the same exception, or both out of fuel. *)
Definition alike {A} (r1 r2 : Outcome A * Heap) : Prop :=
  match r1, r2 with
  | (Return a1, h1), (Return a2, h2) => a1 = a2 /\ agree h1 h2
  | (Throw e1, _), (Throw e2, _) => e1 = e2
  | (OutOfFuel, _), (OutOfFuel, _) => True
  | _, _ => False
  end.

(** [m] reads the staging map and the memo only. *)
Definition msame {A} (m : M A) : Prop :=
  forall h1 h2, agree h1 h2 -> alike (m h1) (m h2).
End References.

(** The sample spreadsheet in which b1 holds a1+1 and a1 is not
    staged. *)
Definition b1_on_a1 : Spreadsheet (P := Sample.parser) :=
  snd (eval (P := Sample.parser) 2 "b1" "a1+1" Sample.empty).

(** ** Operators and operands *)

(** The members of [Object.prototype], the prototype of the object
    literal [FNS]: [operator in FNS] finds them beside the own keys.
    With such a name for operator the code calls the inherited member
    (a [TypeError], or a value that is not a number) where [FNS] here
    is [None]; the parser produces no such operator. *)
Definition Object_prototype (operator : string) : bool :=
  existsb (String.eqb operator)
    ["constructor"; "__defineGetter__"; "__defineSetter__";
     "hasOwnProperty"; "__lookupGetter__"; "__lookupSetter__";
     "isPrototypeOf"; "propertyIsEnumerable"; "toString"; "valueOf";
     "__proto__"; "toLocaleString"].

Section Operands.
Context {P : ExprParser}.

(** The operands [kids], each evaluated by [f] from the heap the one
    before it left, from left to right and starting from [h], all
    return: their values are [vs], in the order of the operands, and
    the last of them leaves [h']. *)
Inductive operands_run (f : Ast CellRef -> M number)
  : list (Ast CellRef) -> Heap -> list number -> Heap -> Prop :=
| operands_done h : operands_run f [] h [] h
| operands_next kid kids h v h1 vs h2 :
    f kid h = (Return v, h1) ->
    operands_run f kids h1 vs h2 ->
    operands_run f (kid :: kids) h (v :: vs) h2.

(** The contract of the parser towards the evaluator: a parsed tree
    has [num], [ref] and [app] nodes only, with the operators
    + - * / min max. *)
Definition keeps_contract : Prop :=
  forall expr cellId val,
    parse expr cellId = Some (okResult val) -> evaluable val = true.
End Operands.

(** ** A second parser to run the engine on

    It keeps the contract; references are absolute cell names and a
    formula may hold two of them. *)
Module Wide.
Definition parseText (expr cellId : string) : option (Result (Ast string)) :=
  if String.eqb expr "5" then Some (okResult (Num 5%float))
  else if String.eqb expr "7" then Some (okResult (Num 7%float))
  else if String.eqb expr "a1" then Some (okResult (Ref "a1"))
  else if String.eqb expr "b1" then Some (okResult (Ref "b1"))
  else if String.eqb expr "d1" then Some (okResult (Ref "d1"))
  else if String.eqb expr "x1+a1" then
    Some (okResult (App "+" [Ref "x1"; Ref "a1"]))
  else Some (errResult "syntax error" "SYNTAX").

#[export] Instance parser : ExprParser := {|
  CellRef := string;
  parseRef := fun cellId => cellId;
  toText := fun value _ => value;
  parse := parseText
|}.

(** The spreadsheet after seven edits of a new one: a1 to b1, d1 to
    x1+a1, x1 to d1 (rejected), a1 to 5 (rejected), x1 to 7, b1 to a1
    and a1 to b1 (rejected). *)
Definition seven_edits : Spreadsheet :=
  runEdits
    [(4, "a1", "b1"); (4, "d1", "x1+a1"); (4, "x1", "d1"); (4, "a1", "5");
     (4, "x1", "7"); (4, "b1", "a1"); (4, "a1", "b1")]
    (newSpreadsheet "ss").

End Wide.

(** ** The web services: from errors to HTTP statuses (ss-ws.ts) *)

Module Ws.

(** [Err] of cs544-js-utils as the mapping reads it: the message and
    [options.code], [None] when an error has no code. *)
Record Err : Type := mkErr {
  message : string;
  code : option string
}.

(** The constants of the http-status package that [ERROR_MAP] reads. *)
Class Status : Type := {
  CONFLICT : Z;
  NOT_FOUND : Z;
  BAD_REQUEST : Z;
  UNAUTHORIZED : Z;
  INTERNAL_SERVER_ERROR : Z
}.

(** What [mapResultErrors] is given: an [Error] that was thrown, or an
    error result with its errors. *)
Inductive Thrown : Type :=
| ThrownError (message : string)
| ThrownResult (errors : list Err).

Record ErrorEnvelope : Type := mkErrorEnvelope {
  isOk : bool;
  status : Z;
  errors : list Err
}.

Section Mapping.
Context {STATUS : Status}.

(** [ERROR_MAP[code]], [None] standing for [undefined]; a member
    inherited from [Object.prototype] compares in [getHttpStatus] as
    [undefined] does. *)
Definition ERROR_MAP (code : string) : option Z :=
  if String.eqb code "EXISTS" then Some CONFLICT
  else if String.eqb code "NOT_FOUND" then Some NOT_FOUND
  else if String.eqb code "BAD_REQ" then Some BAD_REQUEST
  else if String.eqb code "AUTH" then Some UNAUTHORIZED
  else if String.eqb code "DB" then Some INTERNAL_SERVER_ERROR
  else if String.eqb code "INTERNAL" then Some INTERNAL_SERVER_ERROR
  else None.

(** [errStatus] in the loop of [getHttpStatus]. *)
Definition errStatus (err : Err) : option Z :=
  match code err with
  | Some code => ERROR_MAP code
  | None => Some (-1)%Z
  end.

(** The body of the loop of [getHttpStatus]; a comparison with
    [undefined] is false. *)
Definition nextStatus (status : Z) (err : Err) : Z :=
  match errStatus err with
  | Some errStatus =>
      let status :=
        if (0 <? errStatus)%Z && (status =? 0)%Z then errStatus else status in
      if (errStatus =? INTERNAL_SERVER_ERROR)%Z then errStatus else status
  | None => status
  end.

(** [getHttpStatus(errors)]. *)
Definition getHttpStatus (errors : list Err) : Z :=
  let status := fold_left nextStatus errors 0%Z in
  if negb (status =? 0)%Z then status else BAD_REQUEST.

(** [mapResultErrors(err)], the envelope it returns. *)
Definition mapResultErrors (err : Thrown) : ErrorEnvelope :=
  let errors :=
    match err with
    | ThrownError message => [mkErr message (Some "UNKNOWN")]
    | ThrownResult errors => errors
    end in
  {| isOk := false; status := getHttpStatus errors; errors := errors |}.
End Mapping.

(** The values the package gives the constants. *)
Definition httpStatus : Status := {|
  CONFLICT := 409;
  NOT_FOUND := 404;
  BAD_REQUEST := 400;
  UNAUTHORIZED := 401;
  INTERNAL_SERVER_ERROR := 500
|}.
End Ws.

(** ** The browser side: the cells of the page (prj4 spreadsheet.ts)

    The elements of class [cell], in document order, each with its id,
    its text and its other attributes; [null] is [None].  The listeners
    that wait for the web services are not modelled. *)

Module Client.

Record Cell : Type := mkCell {
  id : string;
  textContent : string;
  attributes : Obj.t string
}.

(** A row of [dumpWithValues]: cell id, formula, value. *)
Definition Row : Type := (string * string * number)%type.

Definition getAttribute (cell : Cell) (name : string) : option string :=
  Obj.get (attributes cell) name.

Definition setAttribute (cell : Cell) (name value : string) : Cell :=
  {| id := id cell; textContent := textContent cell;
     attributes := Obj.set (attributes cell) name value |}.

Definition removeAttribute (cell : Cell) (name : string) : Cell :=
  {| id := id cell; textContent := textContent cell;
     attributes := Obj.delete (attributes cell) name |}.

Definition setTextContent (cell : Cell) (text : string) : Cell :=
  {| id := id cell; textContent := text; attributes := attributes cell |}.

(** [a || b] for [a] a string or [null]: the empty string is falsy. *)
Definition orElse (a : option string) (b : string) : string :=
  match a with
  | Some EmptyString | None => b
  | Some a => a
  end.

(** [clearCellData]. *)
Definition clearCellData (document : list Cell) : list Cell :=
  map (fun cell =>
         removeAttribute
           (removeAttribute (setTextContent cell EmptyString) "data-expr")
           "data-value")
      document.

(** [focusCell] on the element it is fired for: the new
    [currentFocusedCell] and the element afterwards. *)
Definition focusCell (cell : Cell) : option string * Cell :=
  let expr := getAttribute cell "data-expr" in
  (Some (id cell),
   setTextContent cell
     (orElse expr (orElse (getAttribute cell "data-value") EmptyString))).

(** [resetCellContent(cell)]. *)
Definition resetCellContent (cell : Cell) : Cell :=
  let prevExpr := getAttribute cell "data-prev-expr" in
  let prevValue := getAttribute cell "data-prev-value" in
  let cell :=
    setTextContent cell
      (orElse prevValue (orElse prevExpr EmptyString)) in
  let cell := setAttribute cell "data-expr" (orElse prevExpr EmptyString) in
  setAttribute cell "data-value" (orElse prevValue EmptyString).

Section Values.
(** [Number.prototype.toString]. *)
Variable numberToString : number -> string.

(** [updateCells(updates)] under the [currentFocusedCell] of the
    moment. *)
Definition updateCells (currentFocusedCell : option string)
  (updates : Updates) (document : list Cell) : list Cell :=
  map (fun cell =>
         let cellId := id cell in
         match Obj.get updates cellId with
         | Some value =>
             if match currentFocusedCell with
                | Some focused => negb (String.eqb focused cellId)
                | None => true
                end
             then
               setTextContent
                 (setAttribute cell "data-value" (numberToString value))
                 (numberToString value)
             else cell
         | None => cell
         end)
      document.

(** What [load] does to the page with the rows of a successful
    [dumpWithValues]. *)
Definition loadRows (data : list Row) (document : list Cell) : list Cell :=
  map (fun cell =>
         let cellId := id cell in
         match find (fun item => String.eqb (fst (fst item)) cellId) data with
         | Some (_, expr, value) =>
             setAttribute
               (setAttribute (setTextContent cell (numberToString value))
                  "data-expr" expr)
               "data-value" (numberToString value)
         | None => cell
         end)
      document.
End Values.
End Client.

(** * Properties of the engine *)

(** ** Objects *)

Section ObjFacts.
Context {V : Type}.
Implicit Types (o : Obj.t V) (k : string) (v : V).

Lemma Obj_get_set_same o k v : Obj.get (Obj.set o k v) k = Some v.
Proof.
  induction o as [|[k' v'] o IH]; simpl.
  - now rewrite String.eqb_refl.
  - destruct (String.eqb k k') eqn:E; simpl; rewrite E; auto.
Qed.

Lemma Obj_get_set_other o k k' v :
  k' <> k -> Obj.get (Obj.set o k v) k' = Obj.get o k'.
Proof.
  intros Hne. induction o as [|[k0 v0] o IH]; simpl.
  - destruct (String.eqb_spec k' k); congruence.
  - destruct (String.eqb_spec k k0) as [->|Hk]; simpl.
    + destruct (String.eqb_spec k' k0); congruence.
    + destruct (String.eqb_spec k' k0); auto.
Qed.

Lemma Obj_has_set_mono o k k' v :
  Obj.has o k' = true -> Obj.has (Obj.set o k v) k' = true.
Proof.
  unfold Obj.has. destruct (String.eqb_spec k' k) as [->|Hne].
  - now rewrite Obj_get_set_same.
  - now rewrite Obj_get_set_other.
Qed.

Lemma Obj_get_In o k v : Obj.get o k = Some v -> In (k, v) o.
Proof.
  induction o as [|[k' v'] o IH]; simpl; [discriminate|].
  destruct (String.eqb_spec k k') as [->|Hne].
  - intros [= ->]. now left.
  - intros H. right. auto.
Qed.

Lemma Obj_In_has o k v : In (k, v) o -> Obj.has o k = true.
Proof.
  unfold Obj.has. induction o as [|[k' v'] o IH]; simpl; [tauto|].
  intros [[= -> ->]|Hin].
  - now rewrite String.eqb_refl.
  - destruct (String.eqb k k'); auto.
Qed.
Lemma Obj_NoDup_get o k v :
  NoDup (Obj.keys o) -> In (k, v) o -> Obj.get o k = Some v.
Proof.
  unfold Obj.keys. induction o as [|[k' v'] o IH]; simpl; [tauto|].
  intros Hnd. inversion Hnd as [|? ? Hnotin Hnd']; subst.
  intros [[= -> ->]|Hin].
  - now rewrite String.eqb_refl.
  - destruct (String.eqb_spec k k') as [->|_]; auto.
    elim Hnotin. apply in_map_iff. now exists (k', v).
Qed.

Lemma Obj_keys_set_In o k v x :
  In x (Obj.keys (Obj.set o k v)) -> x = k \/ In x (Obj.keys o).
Proof.
  unfold Obj.keys. induction o as [|[k' v'] o IH]; simpl.
  - intros [<-|[]]. now left.
  - destruct (String.eqb_spec k k') as [->|_]; simpl; [tauto|].
    intros [<-|Hin]; [tauto|]. destruct (IH Hin); tauto.
Qed.

Lemma Obj_NoDup_set o k v :
  NoDup (Obj.keys o) -> NoDup (Obj.keys (Obj.set o k v)).
Proof.
  induction o as [|[k' v'] o IH]; simpl; intros Hnd.
  - repeat constructor. simpl. tauto.
  - inversion Hnd as [|? ? Hnotin Hnd']; subst.
    destruct (String.eqb_spec k k') as [->|Hne]; simpl.
    + now constructor.
    + constructor; [|now apply IH].
      intros Hin. apply Obj_keys_set_In in Hin as [->|Hin]; auto.
Qed.
End ObjFacts.

(** ** Runs of the monad *)

Section MonadFacts.
Context {P : ExprParser}.

Lemma mrefines_refl {A} (m : M A) : mrefines m m.
Proof. now intros h o h' H _. Qed.

Lemma mrefines_bind {A B} (m1 m2 : M A) (k1 k2 : A -> M B) :
  mrefines m1 m2 -> (forall a, mrefines (k1 a) (k2 a)) ->
  mrefines (bind m1 k1) (bind m2 k2).
Proof.
  intros Hm Hk h o h'. unfold bind.
  destruct (m1 h) as [[a|e|] h1] eqn:E1; intros H Ho.
  - rewrite (Hm _ _ _ E1) by discriminate. now apply Hk.
  - rewrite (Hm _ _ _ E1) by discriminate. exact H.
  - inversion H; subst. now elim Ho.
Qed.

Lemma mapM_cons {A B} (f : A -> M B) (a : A) (l : list A) :
  mapM f (a :: l) =
    bind (f a) (fun b => bind (mapM f l) (fun bs => ret (b :: bs))).
Proof. reflexivity. Qed.

Lemma mrefines_mapM {A B} (f1 f2 : A -> M B) (l : list A) :
  Forall (fun a => mrefines (f1 a) (f2 a)) l ->
  mrefines (mapM f1 l) (mapM f2 l).
Proof.
  induction 1 as [|a l Ha _ IH]; simpl.
  - apply mrefines_refl.
  - apply mrefines_bind; [exact Ha|]. intros b.
    apply mrefines_bind; [exact IH|]. intros bs. apply mrefines_refl.
Qed.
End MonadFacts.

(** ** Syntax trees *)

Section AstFacts.
Context {R : Type}.

(** Induction over a tree and the trees below it. *)
Lemma Ast_kids_ind (Q : Ast R -> Prop) :
  (forall value, Q (Num value)) ->
  (forall value, Q (Ref value)) ->
  (forall fn kids, Forall Q kids -> Q (App fn kids)) ->
  (forall kind, Q (Other kind)) ->
  forall ast, Q ast.
Proof.
  intros HNum HRef HApp HOther.
  fix IH 1. intros [value|value|fn kids|kind].
  - apply HNum.
  - apply HRef.
  - apply HApp. induction kids as [|kid kids IHkids]; constructor.
    + apply IH.
    + exact IHkids.
  - apply HOther.
Qed.
End AstFacts.

(** ** More fuel changes no result *)

Section Fuel.
Context {P : ExprParser}.

Lemma evaluateFormula_refines (rec1 rec2 : string -> string -> M number) :
  (forall x p, mrefines (rec1 x p) (rec2 x p)) ->
  forall ast base p,
    mrefines (evaluateFormula rec1 base ast p)
             (evaluateFormula rec2 base ast p).
Proof.
  intros Hrec ast base p.
  induction ast as [value|value|fn kids IH|kind] using Ast_kids_ind;
    simpl; try apply mrefines_refl.
  - destruct (String.eqb (target value base) p); [apply mrefines_refl|].
    intros h o h'.
    destruct (negb (Obj.has (shadowCells (this h)) (target value base))); auto.
    destruct (Obj.get (updatedCells h) (target value base)); auto.
    apply Hrec.
  - apply mrefines_bind; [now apply mrefines_mapM|].
    intros args. apply mrefines_refl.
Qed.

Lemma forDependents_refines (rec1 rec2 : string -> string -> M number) :
  (forall x p, mrefines (rec1 x p) (rec2 x p)) ->
  forall dependents cellId p,
    mrefines (forDependents rec1 cellId dependents p)
             (forDependents rec2 cellId dependents p).
Proof.
  intros Hrec dependents cellId.
  induction dependents as [|d rest IH]; intros p; simpl.
  - apply mrefines_refl.
  - destruct (String.eqb cellId p && negb (String.eqb cellId d)); auto.
    apply mrefines_bind; auto.
Qed.

Lemma evaluateAndUpdate_fuel_mono n m :
  n <= m ->
  forall cellId p, mrefines (evaluateAndUpdate n cellId p)
                            (evaluateAndUpdate m cellId p).
Proof.
  revert m. induction n as [|n IH]; intros m Hle cellId p h o h'.
  - simpl. intros [= <- <-] Ho. now elim Ho.
  - destruct m as [|m]; [lia|]. simpl.
    destruct (Obj.get (shadowCells (this h)) cellId) as [cell|]; auto.
    assert (Hrec : forall x q, mrefines (evaluateAndUpdate n x q)
                                        (evaluateAndUpdate m x q))
      by (intros; apply IH; lia).
    revert h o h'. apply mrefines_bind.
    + now apply evaluateFormula_refines.
    + intros result h1. apply mrefines_bind; [|intros; apply mrefines_refl].
      now apply forDependents_refines.
Qed.

(** Once [eval] ends within its fuel, it ends the same way with any
    larger fuel. *)
Lemma eval_fuel_mono n m cellId expr ss o ss' :
  n <= m -> eval n cellId expr ss = (o, ss') -> o <> OutOfFuel ->
  eval m cellId expr ss = (o, ss').
Proof.
  intros Hle. unfold eval.
  destruct (parse expr cellId) as [[val|msg code]|]; auto.
  destruct (evaluateAndUpdate n cellId cellId _) as [o1 h1] eqn:E.
  intros H Ho.
  assert (Ho1 : o1 <> OutOfFuel :> Outcome number).
  { intros ->. inversion H; subst. now elim Ho. }
  now rewrite (evaluateAndUpdate_fuel_mono n m Hle _ _ _ _ _ E Ho1).
Qed.
End Fuel.

(** ** What a run of the evaluator leaves of the heap *)

Section Frame.
Context {P : ExprParser}.

Lemma grows_refl h : grows h h.
Proof. split; auto. Qed.

Lemma grows_trans h h1 h2 : grows h h1 -> grows h1 h2 -> grows h h2.
Proof. intros [E1 M1] [E2 M2]. split; [congruence|auto]. Qed.

Lemma grows_store h cellId result :
  grows h {| this := this h;
             updatedCells := Obj.set (updatedCells h) cellId result |}.
Proof. split; simpl; auto using Obj_has_set_mono. Qed.

Lemma framed_grows {A} h h1 (r : Outcome A * Heap) :
  grows h h1 -> framed h1 r -> framed h r.
Proof.
  intros G. destruct r as [[a|[msg|msg]|] h']; simpl;
    try (now apply grows_trans).
  destruct G as [E _]. now rewrite E.
Qed.

Lemma mframed_ret {A} (a : A) : mframed (ret a).
Proof. intros h. apply grows_refl. Qed.

Lemma mframed_bind {A B} (m : M A) (k : A -> M B) :
  mframed m -> (forall a, mframed (k a)) -> mframed (bind m k).
Proof.
  intros Hm Hk h. unfold bind. specialize (Hm h).
  destruct (m h) as [[a|[msg|msg]|] h1]; auto.
  eapply framed_grows; [exact Hm|apply Hk].
Qed.

Lemma mframed_mapM {A B} (f : A -> M B) (l : list A) :
  Forall (fun a => mframed (f a)) l -> mframed (mapM f l).
Proof.
  induction 1 as [|a l Ha _ IH]; simpl.
  - apply mframed_ret.
  - apply mframed_bind; [exact Ha|]. intros b.
    apply mframed_bind; [exact IH|]. intros bs. apply mframed_ret.
Qed.

Lemma evaluateFormula_framed (rec : string -> string -> M number) :
  (forall x p, mframed (rec x p)) ->
  forall ast base p, mframed (evaluateFormula rec base ast p).
Proof.
  intros Hrec ast base p.
  induction ast as [value|value|fn kids IH|kind] using Ast_kids_ind; simpl.
  - apply mframed_ret.
  - destruct (String.eqb (target value base) p); intros h.
    + simpl. now exists p.
    + destruct (negb (Obj.has (shadowCells (this h)) (target value base)));
        [apply grows_refl|].
      destruct (Obj.get (updatedCells h) (target value base));
        [apply grows_refl|apply Hrec].
  - apply mframed_bind; [now apply mframed_mapM|]. intros args.
    destruct (FNS fn); intros h; apply grows_refl.
  - intros h. apply grows_refl.
Qed.

Lemma forDependents_framed (rec : string -> string -> M number) :
  (forall x p, mframed (rec x p)) ->
  forall dependents cellId p, mframed (forDependents rec cellId dependents p).
Proof.
  intros Hrec dependents cellId.
  induction dependents as [|d rest IH]; intros p; simpl.
  - apply mframed_ret.
  - destruct (String.eqb cellId p && negb (String.eqb cellId d)); auto.
    apply mframed_bind; auto.
Qed.

Lemma evaluateAndUpdate_framed fuel :
  forall cellId p, mframed (evaluateAndUpdate fuel cellId p).
Proof.
  induction fuel as [|fuel IH]; intros cellId p h; simpl.
  - apply grows_refl.
  - destruct (Obj.get (shadowCells (this h)) cellId) as [cell|];
      [|apply grows_refl].
    revert h. apply mframed_bind.
    + now apply evaluateFormula_framed.
    + intros result h1. eapply framed_grows; [apply grows_store|].
      apply mframed_bind; [now apply forDependents_framed|].
      intros _. apply mframed_ret.
Qed.

(** No run of the evaluator writes the committed map. *)
Lemma evaluateAndUpdate_cells fuel cellId p h :
  cells (this (snd (evaluateAndUpdate fuel cellId p h))) = cells (this h).
Proof.
  pose proof (evaluateAndUpdate_framed fuel cellId p h) as F.
  destruct (evaluateAndUpdate fuel cellId p h) as [[a|[msg|msg]|] h'];
    simpl in *; try (destruct F as [-> _]; reflexivity).
  destruct F as [q ->]. unfold recoverCell.
  now destruct (Obj.get (cells (this h)) q).
Qed.

(** Short of a circular-reference exception, no run of the evaluator
    writes the spreadsheet object at all. *)
Lemma evaluateAndUpdate_this fuel cellId p h o h' :
  evaluateAndUpdate fuel cellId p h = (o, h') ->
  (forall msg, o <> Throw (CircularReferenceError msg)) ->
  this h' = this h.
Proof.
  intros E Ho. pose proof (evaluateAndUpdate_framed fuel cellId p h) as F.
  rewrite E in F. destruct o as [a|[msg|msg]|]; simpl in F;
    try (now destruct F).
  now elim (Ho msg).
Qed.
End Frame.

(** ** The public operation [eval] *)

Section EvalFacts.
Context {P : ExprParser}.
Local Open Scope float_scope.

(** C6: an expression text that fails to parse, by an exception of the
    parser or by an error result, makes [eval] return an error result
    of code SYNTAX whatever the fuel, and the spreadsheet object, both
    cell maps included, is the one before the call. *)
Theorem eval_syntax_error_mutates_nothing fuel cellId expr ss :
  parse expr cellId = None \/
  (exists msg code, parse expr cellId = Some (errResult msg code)) ->
  eval fuel cellId expr ss =
    (Return (errResult "SYNTAX error ..." "SYNTAX"), ss).
Proof.
  unfold eval. intros [-> | (msg & code & ->)]; reflexivity.
Qed.


Lemma findDependentCells_staged ss base d :
  In d (findDependentCells ss base) -> Obj.has (shadowCells ss) d = true.
Proof.
  unfold findDependentCells. rewrite in_map_iff.
  intros ([k ast] & <- & Hin). apply filter_In in Hin as [Hin _].
  eapply Obj_In_has, Hin.
Qed.

(** The loop over the dependents does nothing in a call whose cell is
    not the parent cell. *)
Lemma forDependents_skip rec cellId dependents p h :
  cellId <> p ->
  forDependents rec cellId dependents p h = (Return tt, h).
Proof.
  intros Hne. induction dependents as [|d rest IH]; simpl; auto.
  destruct (String.eqb_spec cellId p); [contradiction|]. simpl. exact IH.
Qed.

(** C4, amended: a [ref] node whose target cell is not the parent
    cell, is staged and is not memoized yet is evaluated by evaluating
    the formula of the target cell under the same parent cell as the
    node itself, not under the cell whose formula holds the node; the
    value is stored in the memo under the target cell and returned,
    and no dependent of the target cell is visited. *)
Theorem ref_descends_with_unchanged_parent :
  ref_descends_with (fun _ p => p).
Proof.
  intros fuel base value p h cell Hne Hcell Hmemo. simpl.
  destruct (String.eqb_spec (target value base) p) as [|_]; [contradiction|].
  unfold Obj.has. rewrite Hcell, Hmemo. simpl. unfold bind.
  destruct (evaluateFormula _ _ cell p h) as [[result|e|] h1]; auto.
  rewrite forDependents_skip by assumption. reflexivity.
Qed.

(** Operands that all return are what [Array.prototype.map] gives. *)
Lemma operands_run_mapM (f : Ast CellRef -> M number) kids h vs h' :
  operands_run f kids h vs h' -> mapM f kids h = (Return vs, h').
Proof.
  induction 1 as [h|kid kids h v h1 vs h2 Hkid _ IH]; [reflexivity|].
  simpl. unfold bind. rewrite Hkid, IH. reflexivity.
Qed.

(** The first operand that does not return ends the map, with its
    outcome and its heap. *)
Lemma operands_run_stops {A} (f : Ast CellRef -> M A) before :
  forall (vs : list A) kid after h h1 (o : Outcome A) h2,
    mapM f before h = (Return vs, h1) ->
    f kid h1 = (o, h2) -> (forall v, o <> Return v) ->
    (forall e, o = Throw e ->
               mapM f (before ++ kid :: after) h = (Throw e, h2)) /\
    (o = OutOfFuel ->
     mapM f (before ++ kid :: after) h = (OutOfFuel, h2)).
Proof.
  induction before as [|k before IH]; intros vs kid after h h1 o h2 Hrun Hkid Ho.
  - injection Hrun as <- <-. simpl. unfold bind. rewrite Hkid.
    split; [intros e ->|intros ->]; reflexivity.
  - simpl in Hrun. unfold bind in Hrun.
    destruct (f k h) as [[v|e|] hk] eqn:Ek; try discriminate.
    destruct (mapM f before hk) as [[ws|e|] hb] eqn:Eb; try discriminate.
    injection Hrun as <- <-.
    destruct (IH ws kid after hk hb o h2 Eb Hkid Ho) as [Ht Hf].
    simpl. unfold bind. rewrite Ek.
    split; [intros e He; rewrite (Ht e He)|intros He; rewrite (Hf He)];
      reflexivity.
Qed.

(** C9: an [app] node evaluates its operands from left to right, each
    from the heap the one before it left, and then applies the
    operator to their values, in the order of the operands; the first
    operand that throws, or that exhausts the stack, ends the node with
    its outcome and its heap, no operand after it is evaluated and no
    operator is looked up, so that of two operands that throw the left
    one decides.  The operators are + - * / min max, each a key of
    [FNS]: on two values they are the addition, the subtraction, the
    multiplication and the division of binary64 numbers, [Math.min] and
    [Math.max], and - on one value is the negation; a name that is
    none of these six, nor a member of [Object.prototype], is refused
    with an [Error] once the operands have returned.  A reference to a
    cell with no staging entry is 0 under a staged parent cell (parent
    cells are the edited cell, which [eval] stages, and cells
    [findDependentCells] returns, which are staged); and on an empty
    spreadsheet the edits of a1 to -(3) and to 5-2 give a1 the values
    -3 and 3. *)
Theorem app_operands_left_to_right_then_operator :
  (forall rec base fn kids p h vs h' f,
      operands_run (fun operand => evaluateFormula rec base operand p)
        kids h vs h' ->
      FNS fn = Some f ->
      evaluateFormula rec base (App fn kids) p h = (Return (f vs), h')) /\
  (forall rec base fn before kid after p h vs h1 o h2,
      operands_run (fun operand => evaluateFormula rec base operand p)
        before h vs h1 ->
      evaluateFormula rec base kid p h1 = (o, h2) ->
      (forall v, o <> Return v) ->
      evaluateFormula rec base (App fn (before ++ kid :: after)) p h =
        (o, h2)) /\
  (forall rec base fn value kind p h,
      target value base = p ->
      (exists msg h',
          evaluateFormula rec base (App fn [Ref value; Other kind]) p h =
            (Throw (CircularReferenceError msg), h')) /\
      evaluateFormula rec base (App fn [Other kind; Ref value]) p h =
        (Throw (Error ("Invalid ast type '" ++ kind ++ "'")), h)) /\
  (exists plus minus times over least greatest,
      FNS "+" = Some plus /\ FNS "-" = Some minus /\
      FNS "*" = Some times /\ FNS "/" = Some over /\
      FNS "min" = Some least /\ FNS "max" = Some greatest /\
      forall a b,
        plus [a; b] = add a b /\
        minus [a; b] = sub a b /\ minus [a] = opp a /\
        times [a; b] = mul a b /\ over [a; b] = div a b /\
        least [a; b] = Math_min a b /\ greatest [a; b] = Math_max a b) /\
  (forall a b,
      (is_nan a || is_nan b = true ->
       Math_min a b = nan /\ Math_max a b = nan) /\
      (is_nan a || is_nan b = false -> ltb a b = true ->
       Math_min a b = a /\ Math_max a b = b) /\
      (is_nan a || is_nan b = false -> ltb a b = false -> ltb b a = true ->
       Math_min a b = b /\ Math_max a b = a)) /\
  (forall rec base p h,
      evaluateFormula rec base (App "+" [Num 2; Num 3]) p h = (Return 5, h) /\
      evaluateFormula rec base (App "*" [Num 2; Num 3]) p h = (Return 6, h) /\
      evaluateFormula rec base (App "/" [Num 1; Num 4]) p h =
        (Return 0.25, h) /\
      evaluateFormula rec base (App "/" [Num 1; Num 0]) p h =
        (Return infinity, h) /\
      evaluateFormula rec base (App "min" [Num 3; Num 2]) p h =
        (Return 2, h) /\
      evaluateFormula rec base (App "max" [Num 2; Num 3]) p h =
        (Return 3, h) /\
      evaluateFormula rec base
        (App "-" [App "*" [Num 2; Num 3]; App "/" [Num 8; Num 2]]) p h =
        (Return 2, h)) /\
  (forall rec base fn kids p h vs h',
      ~ In fn ["+"; "-"; "*"; "/"; "min"; "max"]%string ->
      Object_prototype fn = false ->
      operands_run (fun operand => evaluateFormula rec base operand p)
        kids h vs h' ->
      evaluateFormula rec base (App fn kids) p h =
        (Throw (Error ("Unknown operator '" ++ fn ++ "'")), h')) /\
  (forall rec base value p h,
      Obj.has (shadowCells (this h)) (target value base) = false ->
      Obj.has (shadowCells (this h)) p = true ->
      evaluateFormula rec base (Ref value) p h = (Return 0, h)) /\
  (forall nm fuel,
      parse "-(3)" "a1" = Some (okResult (App "-" [Num 3])) ->
      parse "5-2" "a1" = Some (okResult (App "-" [Num 5; Num 2])) ->
      1 <= fuel ->
      fst (eval fuel "a1" "-(3)" (newSpreadsheet nm)) =
        Return (okResult [("a1"%string, -3)]) /\
      fst (eval fuel "a1" "5-2" (newSpreadsheet nm)) =
        Return (okResult [("a1"%string, 3)])).
Proof.
  split; [|split; [|split; [|split; [|split; [|split; [|split; [|split]]]]]]].
  - intros rec base fn kids p h vs h' f Hrun Hf. simpl. unfold bind.
    rewrite (operands_run_mapM _ _ _ _ _ Hrun), Hf. reflexivity.
  - intros rec base fn before kid after p h vs h1 o h2 Hrun Hkid Ho.
    apply operands_run_mapM in Hrun.
    destruct (operands_run_stops _ before vs kid after h h1 o h2 Hrun Hkid Ho)
      as [Ht Hf].
    simpl. unfold bind.
    destruct o as [v|e|];
      [now elim (Ho v)|rewrite (Ht e eq_refl)|rewrite (Hf eq_refl)];
      reflexivity.
  - intros rec base fn value kind p h Htarget. simpl. unfold bind. simpl.
    rewrite Htarget, String.eqb_refl. split; [eauto|reflexivity].
  - do 6 eexists. do 6 (split; [reflexivity|]). intros a b.
    repeat split; reflexivity.
  - intros a b. unfold Math_min, Math_max.
    split; [|split].
    + now intros ->.
    + now intros -> ->.
    + now intros -> -> ->.
  - intros rec base p h. repeat split; reflexivity.
  - intros rec base fn kids p h vs h' Hnot _ Hrun. simpl. unfold bind.
    rewrite (operands_run_mapM _ _ _ _ _ Hrun).
    assert (Hnone : FNS fn = None).
    { unfold FNS.
      repeat match goal with
             | |- context [String.eqb fn ?s] =>
                 destruct (String.eqb_spec fn s) as [->|]
             end; try reflexivity; elim Hnot; simpl; auto 10. }
    now rewrite Hnone.
  - intros rec base value p h Hno Hp. simpl.
    destruct (String.eqb_spec (target value base) p) as [E|_].
    + rewrite E in Hno. congruence.
    + now rewrite Hno.
  - intros nm fuel Hneg Hsub Hfuel.
    assert (E1 : eval 1 "a1" "-(3)" (newSpreadsheet nm) =
                 (Return (okResult [("a1"%string, -3)]),
                  {| name := nm; cells := [("a1"%string, App "-" [Num 3])];
                     shadowCells := [("a1"%string, App "-" [Num 3])] |})).
    { unfold eval. rewrite Hneg. reflexivity. }
    assert (E2 : eval 1 "a1" "5-2" (newSpreadsheet nm) =
                 (Return (okResult [("a1"%string, 3)]),
                  {| name := nm;
                     cells := [("a1"%string, App "-" [Num 5; Num 2])];
                     shadowCells :=
                       [("a1"%string, App "-" [Num 5; Num 2])] |})).
    { unfold eval. rewrite Hsub. reflexivity. }
    apply (eval_fuel_mono 1 fuel) in E1, E2; try easy.
    now rewrite E1, E2.
Qed.

(** An edit whose formula starts with a reference to the edited cell
    itself ends in the CIRCULAR_REF error, in every spreadsheet; what
    is left of the spreadsheet is [recoverCell] applied to the
    spreadsheet with the new formula staged. *)
Lemma eval_self_reference ss fuel cellId expr fn value rest :
  parse expr cellId = Some (okResult (App fn (Ref value :: rest))) ->
  target value cellId = cellId ->
  1 <= fuel ->
  eval fuel cellId expr ss =
    (Return (errResult "cyclic dependency ..." "CIRCULAR_REF"),
     recoverCell
       {| name := name ss; cells := cells ss;
          shadowCells :=
            Obj.set (shadowCells ss) cellId (App fn (Ref value :: rest)) |}
       cellId).
Proof.
  intros Hparse Hself Hfuel. destruct fuel as [|fuel]; [lia|].
  unfold eval. rewrite Hparse. simpl.
  rewrite Obj_get_set_same. unfold bind. simpl.
  rewrite Hself, String.eqb_refl. reflexivity.
Qed.

(** C2, on the code: a circular edit of a cell that has no committed
    formula ends in the CIRCULAR_REF error and the rejected formula
    is still the staged formula of the cell afterwards, with no
    committed counterpart. *)
Theorem circular_edit_of_uncommitted_cell_stays_staged
  ss fuel cellId expr fn value rest :
  parse expr cellId = Some (okResult (App fn (Ref value :: rest))) ->
  target value cellId = cellId ->
  1 <= fuel ->
  Obj.get (cells ss) cellId = None ->
  fst (eval fuel cellId expr ss) =
    Return (errResult "cyclic dependency ..." "CIRCULAR_REF") /\
  Obj.get (shadowCells (snd (eval fuel cellId expr ss))) cellId =
    Some (App fn (Ref value :: rest)) /\
  Obj.get (cells (snd (eval fuel cellId expr ss))) cellId = None.
Proof.
  intros Hparse Hself Hfuel Hnone.
  rewrite (eval_self_reference ss fuel cellId expr fn value rest) by assumption.
  unfold recoverCell. simpl. rewrite Hnone. simpl.
  now rewrite Obj_get_set_same.
Qed.

(** The other half of the rollback: a circular edit of a cell that
    has a committed formula puts that formula back into staging. *)
Lemma circular_edit_of_committed_cell_restored
  ss fuel cellId expr fn value rest old :
  parse expr cellId = Some (okResult (App fn (Ref value :: rest))) ->
  target value cellId = cellId ->
  1 <= fuel ->
  Obj.get (cells ss) cellId = Some old ->
  Obj.get (shadowCells (snd (eval fuel cellId expr ss))) cellId = Some old /\
  cells (snd (eval fuel cellId expr ss)) = cells ss.
Proof.
  intros Hparse Hself Hfuel Hold.
  rewrite (eval_self_reference ss fuel cellId expr fn value rest) by assumption.
  unfold recoverCell. simpl. rewrite Hold. simpl.
  now rewrite Obj_get_set_same.
Qed.

(** C3, on the code: from a spreadsheet whose staging and committed
    maps hold the same entries, a circular edit of a cell with no
    committed formula returns the CIRCULAR_REF error and leaves the
    two maps with different entries. *)
Theorem circular_edit_breaks_staging_equals_committed
  ss fuel cellId expr fn value rest :
  parse expr cellId = Some (okResult (App fn (Ref value :: rest))) ->
  target value cellId = cellId ->
  1 <= fuel ->
  Obj.same (shadowCells ss) (cells ss) ->
  Obj.get (cells ss) cellId = None ->
  fst (eval fuel cellId expr ss) =
    Return (errResult "cyclic dependency ..." "CIRCULAR_REF") /\
  ~ Obj.same (shadowCells (snd (eval fuel cellId expr ss)))
             (cells (snd (eval fuel cellId expr ss))).
Proof.
  intros Hparse Hself Hfuel Hsame Hnone.
  rewrite (eval_self_reference ss fuel cellId expr fn value rest) by assumption.
  split; [reflexivity|]. intros Hsame'. specialize (Hsame' cellId).
  revert Hsame'. unfold recoverCell. simpl. rewrite Hnone. simpl.
  rewrite Obj_get_set_same, Hnone. discriminate.
Qed.

(** C1, on the code: with b1 set to a1+1 and c1 set to b1+1 on an
    empty spreadsheet, the edit of a1 to 5 returns the update map
    with a1 at 5 and b1 at 6 and nothing else: c1, which depends on
    a1 through b1, is not in it. *)
Theorem eval_omits_indirect_dependent nm fuel ra rb :
  parse "a1+1" "b1" = Some (okResult (App "+" [Ref ra; Num 1])) ->
  target ra "b1" = "a1"%string ->
  parse "b1+1" "c1" = Some (okResult (App "+" [Ref rb; Num 1])) ->
  target rb "c1" = "b1"%string ->
  parse "5" "a1" = Some (okResult (Num 5)) ->
  3 <= fuel ->
  let s1 := snd (eval fuel "b1" "a1+1" (newSpreadsheet nm)) in
  let s2 := snd (eval fuel "c1" "b1+1" s1) in
  fst (eval fuel "c1" "b1+1" s1) = Return (okResult [("c1"%string, 2)]) /\
  isDependent (App "+" [Ref rb; Num 1]) "c1" "b1" = true /\
  isDependent (App "+" [Ref ra; Num 1]) "b1" "a1" = true /\
  fst (eval fuel "a1" "5" s2) =
    Return (okResult [("a1"%string, 5); ("b1"%string, 6)]).
Proof.
  intros Hb Hra Hc Hrb H5 Hfuel.
  set (b1 := App "+" [Ref ra; Num 1]) in *.
  set (c1 := App "+" [Ref rb; Num 1]) in *.
  assert (E1 : eval 3 "b1" "a1+1" (newSpreadsheet nm) =
               (Return (okResult [("b1"%string, 1)]),
                {| name := nm; cells := [("b1"%string, b1)];
                   shadowCells := [("b1"%string, b1)] |})).
  { unfold eval. rewrite Hb. subst b1.
    run_with ltac:(rewrite ?Hra, ?Hrb). reflexivity. }
  assert (E2 : eval 3 "c1" "b1+1"
                 {| name := nm; cells := [("b1"%string, b1)];
                    shadowCells := [("b1"%string, b1)] |} =
               (Return (okResult [("c1"%string, 2)]),
                {| name := nm;
                   cells := [("b1"%string, b1); ("c1"%string, c1)];
                   shadowCells := [("b1"%string, b1); ("c1"%string, c1)] |})).
  { unfold eval. rewrite Hc. subst b1 c1.
    run_with ltac:(rewrite ?Hra, ?Hrb). reflexivity. }
  assert (E3 : eval 3 "a1" "5"
                 {| name := nm;
                    cells := [("b1"%string, b1); ("c1"%string, c1)];
                    shadowCells := [("b1"%string, b1); ("c1"%string, c1)] |} =
               (Return (okResult [("a1"%string, 5); ("b1"%string, 6)]),
                {| name := nm;
                   cells := [("b1"%string, b1); ("c1"%string, c1);
                             ("a1"%string, Num 5)];
                   shadowCells := [("b1"%string, b1); ("c1"%string, c1);
                                   ("a1"%string, Num 5)] |})).
  { unfold eval. rewrite H5. subst b1 c1.
    run_with ltac:(rewrite ?Hra, ?Hrb). reflexivity. }
  apply (eval_fuel_mono 3 fuel) in E1, E2, E3; try easy.
  cbv zeta. rewrite E1. simpl snd. rewrite E2. simpl snd. rewrite E3.
  subst b1 c1. simpl. rewrite Hra, Hrb. auto.
Qed.

(** C5, on the code: the edit of a1 to a1+1 ends in the CIRCULAR_REF
    error in every spreadsheet and writes no committed formula; on an
    empty spreadsheet, after a1 has been set to b1+1 with the value
    1, the edit of b1 to a1+1 ends in the CIRCULAR_REF error and
    writes no committed formula either, but b1, which had no staged
    formula before, keeps a1+1 as its staged formula, and the next
    edit of a1, to 7, reports b1 at 8. *)
Theorem rejected_edit_of_b1_stays_staged nm fuel ra rb rs ss :
  parse "a1+1" "a1" = Some (okResult (App "+" [Ref rs; Num 1])) ->
  target rs "a1" = "a1"%string ->
  parse "b1+1" "a1" = Some (okResult (App "+" [Ref rb; Num 1])) ->
  target rb "a1" = "b1"%string ->
  parse "a1+1" "b1" = Some (okResult (App "+" [Ref ra; Num 1])) ->
  target ra "b1" = "a1"%string ->
  parse "7" "a1" = Some (okResult (Num 7)) ->
  2 <= fuel ->
  let s1 := snd (eval fuel "a1" "b1+1" (newSpreadsheet nm)) in
  let s2 := snd (eval fuel "b1" "a1+1" s1) in
  (fst (eval fuel "a1" "a1+1" ss) =
     Return (errResult "cyclic dependency ..." "CIRCULAR_REF") /\
   cells (snd (eval fuel "a1" "a1+1" ss)) = cells ss) /\
  fst (eval fuel "a1" "b1+1" (newSpreadsheet nm)) =
    Return (okResult [("a1"%string, 1)]) /\
  fst (eval fuel "b1" "a1+1" s1) =
    Return (errResult "cyclic dependency ..." "CIRCULAR_REF") /\
  cells s2 = cells s1 /\
  Obj.get (shadowCells s1) "b1" = None /\
  Obj.get (shadowCells s2) "b1" = Some (App "+" [Ref ra; Num 1]) /\
  fst (eval fuel "a1" "7" s2) =
    Return (okResult [("a1"%string, 7); ("b1"%string, 8)]).
Proof.
  intros Hs Hrs Ha Hrb Hb Hra H7 Hfuel.
  set (a1 := App "+" [Ref rb; Num 1]) in *.
  set (b1 := App "+" [Ref ra; Num 1]) in *.
  split.
  { rewrite (eval_self_reference ss fuel "a1" "a1+1" "+" rs [Num 1])
      by (assumption || lia).
    split; [reflexivity|]. unfold recoverCell. simpl.
    now destruct (Obj.get (cells ss) "a1"). }
  assert (E1 : eval 2 "a1" "b1+1" (newSpreadsheet nm) =
               (Return (okResult [("a1"%string, 1)]),
                {| name := nm; cells := [("a1"%string, a1)];
                   shadowCells := [("a1"%string, a1)] |})).
  { unfold eval. rewrite Ha. subst a1.
    run_with ltac:(rewrite ?Hra, ?Hrb). reflexivity. }
  assert (E2 : eval 2 "b1" "a1+1"
                 {| name := nm; cells := [("a1"%string, a1)];
                    shadowCells := [("a1"%string, a1)] |} =
               (Return (errResult "cyclic dependency ..." "CIRCULAR_REF"),
                {| name := nm; cells := [("a1"%string, a1)];
                   shadowCells := [("a1"%string, a1); ("b1"%string, b1)] |})).
  { unfold eval. rewrite Hb. subst a1 b1.
    run_with ltac:(rewrite ?Hra, ?Hrb). reflexivity. }
  assert (E3 : eval 2 "a1" "7"
                 {| name := nm; cells := [("a1"%string, a1)];
                    shadowCells := [("a1"%string, a1); ("b1"%string, b1)] |} =
               (Return (okResult [("a1"%string, 7); ("b1"%string, 8)]),
                {| name := nm; cells := [("a1"%string, Num 7)];
                   shadowCells :=
                     [("a1"%string, Num 7); ("b1"%string, b1)] |})).
  { unfold eval. rewrite H7. subst a1 b1.
    run_with ltac:(rewrite ?Hra, ?Hrb). reflexivity. }
  apply (eval_fuel_mono 2 fuel) in E1, E2, E3; try easy.
  cbv zeta. rewrite E1. simpl snd. rewrite E2. simpl snd. rewrite E3.
  simpl. auto 10.
Qed.
(** The other way dependents get lost: with b1 and c1 both set to a1+1,
    the loop of [evaluateAndUpdate] visits b1 and then takes b1 for the
    parent cell, so c1 is not visited. *)
Lemma eval_omits_second_direct_dependent nm fuel rb rc :
  parse "a1+1" "b1" = Some (okResult (App "+" [Ref rb; Num 1])) ->
  target rb "b1" = "a1"%string ->
  parse "a1+1" "c1" = Some (okResult (App "+" [Ref rc; Num 1])) ->
  target rc "c1" = "a1"%string ->
  parse "5" "a1" = Some (okResult (Num 5)) ->
  2 <= fuel ->
  let s1 := snd (eval fuel "b1" "a1+1" (newSpreadsheet nm)) in
  let s2 := snd (eval fuel "c1" "a1+1" s1) in
  findDependentCells s2 "a1" = ["b1"; "c1"]%string /\
  fst (eval fuel "a1" "5" s2) =
    Return (okResult [("a1"%string, 5); ("b1"%string, 6)]).
Proof.
  intros Hb Hrb Hc Hrc H5 Hfuel.
  set (b1 := App "+" [Ref rb; Num 1]) in *.
  set (c1 := App "+" [Ref rc; Num 1]) in *.
  assert (E1 : eval 2 "b1" "a1+1" (newSpreadsheet nm) =
               (Return (okResult [("b1"%string, 1)]),
                {| name := nm; cells := [("b1"%string, b1)];
                   shadowCells := [("b1"%string, b1)] |})).
  { unfold eval. rewrite Hb. subst b1.
    run_with ltac:(rewrite ?Hrb, ?Hrc). reflexivity. }
  assert (E2 : eval 2 "c1" "a1+1"
                 {| name := nm; cells := [("b1"%string, b1)];
                    shadowCells := [("b1"%string, b1)] |} =
               (Return (okResult [("c1"%string, 1)]),
                {| name := nm;
                   cells := [("b1"%string, b1); ("c1"%string, c1)];
                   shadowCells := [("b1"%string, b1); ("c1"%string, c1)] |})).
  { unfold eval. rewrite Hc. subst b1 c1.
    run_with ltac:(rewrite ?Hrb, ?Hrc). reflexivity. }
  assert (E3 : eval 2 "a1" "5"
                 {| name := nm;
                    cells := [("b1"%string, b1); ("c1"%string, c1)];
                    shadowCells := [("b1"%string, b1); ("c1"%string, c1)] |} =
               (Return (okResult [("a1"%string, 5); ("b1"%string, 6)]),
                {| name := nm;
                   cells := [("b1"%string, b1); ("c1"%string, c1);
                             ("a1"%string, Num 5)];
                   shadowCells := [("b1"%string, b1); ("c1"%string, c1);
                                   ("a1"%string, Num 5)] |})).
  { unfold eval. rewrite H5. subst b1 c1.
    run_with ltac:(rewrite ?Hrb, ?Hrc). reflexivity. }
  apply (eval_fuel_mono 2 fuel) in E1, E2, E3; try easy.
  cbv zeta. rewrite E1. simpl snd. rewrite E2. simpl snd. rewrite E3.
  subst b1 c1. unfold findDependentCells. simpl. rewrite Hrb, Hrc. auto.
Qed.

(** A successful edit keeps the staging map and the committed map
    holding the same entries. *)
Lemma eval_ok_keeps_staging_equal_committed fuel cellId expr ss updates ss' :
  Obj.same (shadowCells ss) (cells ss) ->
  eval fuel cellId expr ss = (Return (okResult updates), ss') ->
  Obj.same (shadowCells ss') (cells ss').
Proof.
  intros Hsame. unfold eval.
  destruct (parse expr cellId) as [[val|msg code]|]; try discriminate.
  destruct (evaluateAndUpdate fuel cellId cellId _) as [[v|[m|m]|] h] eqn:E;
    try discriminate.
  intros [= _ <-].
  rewrite (evaluateAndUpdate_this _ _ _ _ _ _ E) by discriminate.
  unfold coverCell. simpl. rewrite Obj_get_set_same. simpl. intros k.
  destruct (String.eqb_spec k cellId) as [->|Hne].
  - now rewrite !Obj_get_set_same.
  - rewrite !Obj_get_set_other by assumption. apply Hsame.
Qed.
Lemma Obj_set_In {V} (o : Obj.t V) k v k' v' :
  In (k', v') (Obj.set o k v) -> (k' = k /\ v' = v) \/ In (k', v') o.
Proof.
  induction o as [|[k0 v0] o IH]; simpl.
  - intros [[= <- <-]|[]]. now left.
  - destruct (String.eqb_spec k k0) as [->|_]; simpl.
    + intros [[= <- <-]|Hin]; auto.
    + intros [Heq|Hin]; auto. destruct (IH Hin); auto.
Qed.

Lemma fold_delete_others {V} ks (k : string) (v : V) :
  ~ In k ks -> fold_left Obj.delete ks [(k, v)] = [(k, v)].
Proof.
  induction ks as [|k' ks IH]; simpl; [reflexivity|]. intros Hnot.
  destruct (String.eqb_spec k' k) as [->|_]; [tauto|]. apply IH. tauto.
Qed.

(** In any spreadsheet where no staged formula refers to the edited
    cell, the edit to a constant returns the update map with that cell
    at that value alone. *)
Lemma eval_constant_without_dependents fuel cellId expr ss v :
  parse expr cellId = Some (okResult (Num v)) ->
  (forall k ast, In (k, ast) (shadowCells ss) ->
                 isDependent ast k cellId = false) ->
  1 <= fuel ->
  fst (eval fuel cellId expr ss) = Return (okResult [(cellId, v)]).
Proof.
  intros Hparse Hnone Hfuel. destruct fuel as [|fuel]; [lia|].
  unfold eval. rewrite Hparse. simpl. rewrite Obj_get_set_same.
  unfold bind. simpl.
  replace (findDependentCells _ cellId) with (@nil string).
  - simpl. rewrite fold_delete_others; [reflexivity|].
    unfold findDependentCells2. rewrite in_map_iff.
    intros ([k ast] & Hk & Hin). simpl in Hk. subst k.
    apply filter_In in Hin as [_ Hin]. simpl in Hin.
    now rewrite String.eqb_refl in Hin.
  - symmetry. unfold findDependentCells. simpl.
    destruct (filter _ (Obj.set (shadowCells ss) cellId (Num v)))
      as [|[k ast] rest] eqn:E; [reflexivity|].
    assert (Hin : In (k, ast) ((k, ast) :: rest)) by now left.
    rewrite <- E in Hin. apply filter_In in Hin as [Hin Hdep]. simpl in Hdep.
    apply Obj_set_In in Hin as [[-> ->]|Hin]; [discriminate|].
    rewrite (Hnone _ _ Hin) in Hdep. discriminate.
Qed.
End EvalFacts.

(** ** What the returned update map holds *)

Section Returned.
Context {P : ExprParser}.

Lemma Obj_keys_delete_In {V} (o : Obj.t V) k x :
  In x (Obj.keys (Obj.delete o k)) -> In x (Obj.keys o).
Proof.
  unfold Obj.keys. induction o as [|[k' v'] o IH]; simpl; [tauto|].
  destruct (String.eqb k k'); simpl; tauto.
Qed.

Lemma Obj_NoDup_delete {V} (o : Obj.t V) k :
  NoDup (Obj.keys o) -> NoDup (Obj.keys (Obj.delete o k)).
Proof.
  induction o as [|[k' v'] o IH]; simpl; intros Hnd; [constructor|].
  inversion Hnd as [|? ? Hnotin Hnd']; subst.
  destruct (String.eqb k k'); simpl; auto.
  constructor; auto. intros Hin. apply Hnotin.
  eapply Obj_keys_delete_In, Hin.
Qed.

Lemma Obj_has_keys {V} (o : Obj.t V) x :
  Obj.has o x = true -> In x (Obj.keys o).
Proof.
  unfold Obj.has, Obj.keys. induction o as [|[k' v'] o IH]; simpl;
    [discriminate|].
  destruct (String.eqb_spec x k') as [->|_]; auto.
Qed.

Lemma Obj_has_delete {V} (o : Obj.t V) k x :
  NoDup (Obj.keys o) -> Obj.has (Obj.delete o k) x = true ->
  Obj.has o x = true /\ x <> k.
Proof.
  unfold Obj.has. induction o as [|[k' v'] o IH]; simpl; intros Hnd;
    [discriminate|].
  inversion Hnd as [|? ? Hnotin Hnd']; subst.
  destruct (String.eqb_spec k k') as [->|Hk]; simpl.
  - intros Hx. destruct (String.eqb_spec x k') as [->|Hne].
    + elim Hnotin. now apply Obj_has_keys.
    + now split.
  - destruct (String.eqb_spec x k') as [->|Hne]; auto.
Qed.

Lemma Obj_has_fold_delete {V} ks : forall (o : Obj.t V) x,
  NoDup (Obj.keys o) -> Obj.has (fold_left Obj.delete ks o) x = true ->
  Obj.has o x = true /\ ~ In x ks.
Proof.
  induction ks as [|k ks IH]; simpl; intros o x Hnd Hx; [tauto|].
  apply IH in Hx as [Hx Hks]; [|now apply Obj_NoDup_delete].
  apply Obj_has_delete in Hx as [Hx Hk]; [|assumption].
  split; [assumption|]. intros [->|Hin]; auto.
Qed.

Section Keeps.
Variable I : Heap -> Prop.
Hypothesis I_store :
  forall h x v,
    I h -> Obj.has (shadowCells (this h)) x = true ->
    I {| this := this h; updatedCells := Obj.set (updatedCells h) x v |}.

Lemma mkeeps_bind {A B} (m : M A) (k : A -> M B) :
  mkeeps I m -> (forall a, mkeeps I (k a)) -> mkeeps I (bind m k).
Proof.
  intros Hm Hk h b h' Hh. unfold bind.
  destruct (m h) as [[a|e|] h1] eqn:E; try discriminate.
  apply Hk. eapply Hm; eauto.
Qed.

Lemma mkeeps_mapM {A B} (f : A -> M B) (l : list A) :
  Forall (fun a => mkeeps I (f a)) l -> mkeeps I (mapM f l).
Proof.
  induction 1 as [|a l Ha _ IH].
  - intros h bs h' Hh [= _ <-]. exact Hh.
  - rewrite mapM_cons. apply mkeeps_bind; [exact Ha|]. intros b.
    apply mkeeps_bind; [exact IH|]. intros bs h a0 h' Hh [= _ <-]. exact Hh.
Qed.

Lemma evaluateFormula_keeps rec :
  (forall x p, mkeeps I (rec x p)) ->
  forall ast base p, mkeeps I (evaluateFormula rec base ast p).
Proof.
  intros Hrec ast base p.
  induction ast as [value|value|fn kids IH|kind] using Ast_kids_ind; simpl.
  - intros h a h' Hh [= _ <-]. exact Hh.
  - destruct (String.eqb (target value base) p); intros h a h' Hh;
      [discriminate|].
    destruct (negb (Obj.has (shadowCells (this h)) (target value base))).
    + intros [= _ <-]. exact Hh.
    + destruct (Obj.get (updatedCells h) (target value base)).
      * intros [= _ <-]. exact Hh.
      * now apply Hrec.
  - apply mkeeps_bind; [now apply mkeeps_mapM|]. intros args.
    destruct (FNS fn); intros h a h' Hh; [|discriminate].
    intros [= _ <-]. exact Hh.
  - intros h a h' Hh. discriminate.
Qed.

Lemma forDependents_keeps rec :
  (forall x p, mkeeps I (rec x p)) ->
  forall dependents cellId p, mkeeps I (forDependents rec cellId dependents p).
Proof.
  intros Hrec dependents cellId.
  induction dependents as [|d rest IH]; intros p; simpl.
  - intros h a h' Hh [= _ <-]. exact Hh.
  - destruct (String.eqb cellId p && negb (String.eqb cellId d)); auto.
    apply mkeeps_bind; auto.
Qed.

Lemma evaluateAndUpdate_keeps fuel :
  forall cellId p, mkeeps I (evaluateAndUpdate fuel cellId p).
Proof.
  induction fuel as [|fuel IH]; intros cellId p h a h' Hh; simpl;
    [discriminate|].
  destruct (Obj.get (shadowCells (this h)) cellId) as [cell|] eqn:Hcell;
    [|discriminate].
  unfold bind at 1.
  pose proof (evaluateFormula_framed _ (evaluateAndUpdate_framed fuel)
                cell cellId p h) as F.
  destruct (evaluateFormula _ cellId cell p h) as [[r|e|] h1] eqn:E;
    try discriminate.
  destruct F as [Et _].
  apply (evaluateFormula_keeps _ IH) in E; [|exact Hh].
  apply mkeeps_bind.
  - now apply forDependents_keeps.
  - intros _ h0 a0 h0' Hh0 [= _ <-]. exact Hh0.
  - apply I_store; [exact E|]. rewrite Et. unfold Obj.has. now rewrite Hcell.
Qed.
End Keeps.

Lemma memo_staged_store h x v :
  memo_staged h -> Obj.has (shadowCells (this h)) x = true ->
  memo_staged {| this := this h;
                 updatedCells := Obj.set (updatedCells h) x v |}.
Proof.
  intros [Hnd Hst] Hx. split; simpl.
  - now apply Obj_NoDup_set.
  - intros k. unfold Obj.has at 1. destruct (String.eqb_spec k x) as [->|Hne].
    + intros _. exact Hx.
    + rewrite Obj_get_set_other by assumption. apply Hst.
Qed.

(** Whatever the spreadsheet, the update map a successful [eval]
    returns holds, besides the edited cell, only cells whose staged
    formula refers to the edited cell directly. *)
Lemma eval_returns_direct_dependents_only fuel cellId expr ss updates ss' :
  eval fuel cellId expr ss = (Return (okResult updates), ss') ->
  forall k,
    Obj.has updates k = true ->
    k = cellId \/
    exists ast, Obj.get (shadowCells ss') k = Some ast /\
                isDependent ast k cellId = true.
Proof.
  unfold eval.
  destruct (parse expr cellId) as [[val|msg code]|]; try discriminate.
  destruct (evaluateAndUpdate fuel cellId cellId _) as [[v|[m|m]|] h] eqn:E;
    try discriminate.
  intros [= <- <-] k Hk.
  assert (H0 : memo_staged
                 {| this := {| name := name ss; cells := cells ss;
                               shadowCells :=
                                 Obj.set (shadowCells ss) cellId val |};
                    updatedCells := [] |}).
  { split; [constructor|]. intros x. discriminate. }
  destruct (evaluateAndUpdate_keeps memo_staged memo_staged_store
              fuel cellId cellId _ _ _ H0 E) as [Hnd Hst].
  apply Obj_has_fold_delete in Hk as [Hk Hnot]; [|exact Hnd].
  apply Hst in Hk. unfold Obj.has in Hk.
  destruct (Obj.get (shadowCells (this h)) k) as [ast|] eqn:Hast;
    [|discriminate].
  destruct (String.eqb_spec k cellId) as [|Hne]; [now left|]. right.
  exists ast. split.
  - unfold coverCell. now destruct (Obj.get (shadowCells (this h)) cellId).
  - destruct (isDependent ast k cellId) eqn:Hdep; [reflexivity|].
    elim Hnot. unfold findDependentCells2. apply in_map_iff.
    exists (k, ast). split; [reflexivity|]. apply filter_In. split.
    + now apply Obj_get_In.
    + simpl. rewrite Hdep. destruct (String.eqb_spec k cellId); auto.
Qed.
End Returned.

(** ** Exceptions other than the circular-reference exception *)

Section Faults.
Context {P : ExprParser}.

Lemma merr_bind {A B} (m : M A) (k : A -> M B) extra :
  mframed m -> merr m extra -> (forall a, merr (k a) extra) ->
  merr (bind m k) extra.
Proof.
  intros Fm Hm Hk h msg h'. unfold bind. specialize (Fm h).
  destruct (m h) as [[a|e|] h1] eqn:E; intros H.
  - destruct Fm as [Et _]. rewrite <- Et. eapply Hk, H.
  - inversion H; subst. eapply Hm, E.
  - discriminate.
Qed.

Lemma merr_mapM {A B} (f : A -> M B) (g : A -> bool) (l : list A) :
  Forall (fun a => mframed (f a) /\ merr (f a) (g a = false)) l ->
  merr (mapM f l) (forallb g l = false).
Proof.
  induction 1 as [|a l [Fa Ha] Hl IH]; simpl.
  - intros h msg h'. discriminate.
  - apply merr_bind; [exact Fa| |].
    + intros h msg h' E. destruct (Ha _ _ _ E) as [->|]; auto.
    + intros b. apply merr_bind.
      * apply mframed_mapM. eapply Forall_impl; [|exact Hl]. now intros a0 [].
      * intros h msg h' E. destruct (IH _ _ _ E) as [->|]; auto.
        left. apply andb_false_r.
      * intros bs h msg h'. discriminate.
Qed.

Lemma mapM_Return_each {A B} (f : A -> M B) (l : list A) h bs h' :
  mapM f l h = (Return bs, h') ->
  Forall (fun a => exists h1 b h2, f a h1 = (Return b, h2)) l.
Proof.
  revert h bs h'. induction l as [|a l IH]; intros h bs h'.
  - constructor.
  - rewrite mapM_cons. unfold bind.
    destruct (f a h) as [[b|e|] h1] eqn:E; try discriminate.
    destruct (mapM f l h1) as [[bs'|e|] h2] eqn:E'; try discriminate.
    intros _. constructor; eauto.
Qed.

(** A formula whose evaluation returns is evaluable. *)
Lemma evaluateFormula_Return_evaluable rec ast :
  forall base p h v h',
    evaluateFormula rec base ast p h = (Return v, h') -> evaluable ast = true.
Proof.
  induction ast as [value|value|fn kids IH|kind] using Ast_kids_ind;
    intros base p h v h'; simpl; auto.
  - unfold bind. destruct (mapM _ kids h) as [[args|e|] h1] eqn:E;
      try discriminate.
    destruct (FNS fn); [|discriminate]. intros _.
    apply mapM_Return_each in E. apply forallb_forall. intros kid Hin.
    rewrite Forall_forall in IH, E.
    destruct (E kid Hin) as (h2 & b & h3 & Hkid). eapply IH; eauto.
  - discriminate.
Qed.

Lemma evaluateAndUpdate_Return_evaluable fuel cellId p h v h' :
  evaluateAndUpdate fuel cellId p h = (Return v, h') ->
  exists cell, Obj.get (shadowCells (this h)) cellId = Some cell /\
               evaluable cell = true.
Proof.
  destruct fuel as [|fuel]; simpl; [discriminate|].
  destruct (Obj.get (shadowCells (this h)) cellId) as [cell|];
    [|discriminate].
  unfold bind at 1.
  destruct (evaluateFormula _ cellId cell p h) as [[r|e|] h1] eqn:E;
    try discriminate.
  intros _. exists cell. split; [reflexivity|].
  eapply evaluateFormula_Return_evaluable, E.
Qed.

Lemma evaluateFormula_Error rec :
  (forall x p, mframed (rec x p)) ->
  (forall x p h msg h',
      Obj.has (shadowCells (this h)) x = true ->
      rec x p h = (Throw (Error msg), h') -> fault_staged (this h)) ->
  forall ast base p,
    merr (evaluateFormula rec base ast p) (evaluable ast = false).
Proof.
  intros Frec Hrec ast base p.
  induction ast as [value|value|fn kids IH|kind] using Ast_kids_ind; simpl.
  - intros h msg h'. discriminate.
  - destruct (String.eqb (target value base) p); intros h msg h';
      [discriminate|].
    destruct (Obj.has (shadowCells (this h)) (target value base)) eqn:Hhas;
      simpl; [|discriminate].
    destruct (Obj.get (updatedCells h) (target value base)); [discriminate|].
    intros E. right. eapply Hrec; eauto.
  - apply merr_bind.
    + apply mframed_mapM. rewrite Forall_forall. intros kid _.
      now apply evaluateFormula_framed.
    + intros h msg h' E.
      eapply (merr_mapM _ evaluable) in E.
      * destruct E as [E|]; auto. left. rewrite E. now destruct (FNS fn).
      * rewrite Forall_forall in IH |- *. intros kid Hin. split; auto.
        now apply evaluateFormula_framed.
    + intros args h msg h'. destruct (FNS fn); [discriminate|]. now left.
  - intros h msg h' _. now left.
Qed.

Lemma forDependents_Error rec :
  (forall x p, mframed (rec x p)) ->
  (forall x p h msg h',
      Obj.has (shadowCells (this h)) x = true ->
      rec x p h = (Throw (Error msg), h') -> fault_staged (this h)) ->
  forall dependents cellId p h msg h',
    Forall (fun d => Obj.has (shadowCells (this h)) d = true) dependents ->
    forDependents rec cellId dependents p h = (Throw (Error msg), h') ->
    fault_staged (this h).
Proof.
  intros Frec Hrec dependents cellId.
  induction dependents as [|d rest IH]; intros p h msg h' Hdeps; simpl.
  - discriminate.
  - inversion Hdeps as [|? ? Hd Hrest]; subst.
    destruct (String.eqb cellId p && negb (String.eqb cellId d)); eauto.
    unfold bind. pose proof (Frec d d h) as F.
    destruct (rec d d h) as [[a|e|] h1] eqn:E; intros H.
    + destruct F as [Et _]. rewrite <- Et. eapply IH; [|exact H].
      now rewrite Et.
    + inversion H; subst. eapply Hrec; eauto.
    + discriminate.
Qed.

(** An [Error] out of the evaluation of a staged cell comes from a
    staged formula that is not evaluable. *)
Lemma evaluateAndUpdate_Error fuel :
  forall cellId p h msg h',
    Obj.has (shadowCells (this h)) cellId = true ->
    evaluateAndUpdate fuel cellId p h = (Throw (Error msg), h') ->
    fault_staged (this h).
Proof.
  induction fuel as [|fuel IH]; intros cellId p h msg h' Hhas; simpl;
    [discriminate|].
  unfold Obj.has in Hhas.
  destruct (Obj.get (shadowCells (this h)) cellId) as [cell|] eqn:Hcell;
    [|discriminate].
  unfold bind at 1.
  pose proof (evaluateFormula_framed _ (evaluateAndUpdate_framed fuel)
                cell cellId p h) as F.
  destruct (evaluateFormula _ cellId cell p h) as [[r|e|] h1] eqn:E; intros H.
  - destruct F as [Et _]. unfold bind in H. simpl in H.
    destruct (forDependents _ cellId _ p _) as [[[]|e|] h2] eqn:E2;
      inversion H; subst.
    rewrite <- Et.
    eapply (forDependents_Error _ (evaluateAndUpdate_framed fuel) IH) in E2;
      [exact E2|].
    simpl. rewrite Forall_forall. intros d. apply findDependentCells_staged.
  - inversion H; subst.
    apply (evaluateFormula_Error _ (evaluateAndUpdate_framed fuel) IH) in E.
    destruct E as [E|]; auto. now exists cellId, cell.
  - discriminate.
Qed.



(** Every committed formula is evaluable: that holds of a new
    spreadsheet and [eval] keeps it, however it ends. *)
Lemma newSpreadsheet_committed_evaluable nm :
  committed_evaluable (newSpreadsheet nm).
Proof. intros x ast. discriminate. Qed.

Lemma eval_keeps_committed_evaluable fuel cellId expr ss :
  committed_evaluable ss ->
  committed_evaluable (snd (eval fuel cellId expr ss)).
Proof.
  intros Hce. unfold eval.
  destruct (parse expr cellId) as [[val|msg code]|]; auto.
  pose proof (evaluateAndUpdate_cells fuel cellId cellId
                {| this := {| name := name ss; cells := cells ss;
                              shadowCells :=
                                Obj.set (shadowCells ss) cellId val |};
                   updatedCells := [] |}) as Hcells.
  destruct (evaluateAndUpdate fuel cellId cellId _) as [[v|[m|m]|] h] eqn:E;
    simpl in *; try (intros x ast; rewrite Hcells; apply Hce).
  pose proof (evaluateAndUpdate_this _ _ _ _ _ _ E) as Ht.
  rewrite Ht by discriminate.
  apply evaluateAndUpdate_Return_evaluable in E as (cell & Hcell & Hev).
  simpl in Hcell. unfold coverCell. simpl. rewrite Hcell.
  rewrite Obj_get_set_same in Hcell. injection Hcell as <-.
  intros x ast. simpl. destruct (String.eqb_spec x cellId) as [->|Hne].
  - rewrite Obj_get_set_same. now intros [= <-].
  - rewrite Obj_get_set_other by assumption. apply Hce.
Qed.
End Faults.

(** ** Termination *)

Section Termination.
Context {P : ExprParser}.

Lemma isDependent_kid fn kids kid base y :
  In kid kids -> isDependent kid base y = true ->
  isDependent (App fn kids) base y = true.
Proof. intros Hin Hdep. simpl. apply existsb_exists. eauto. Qed.

Lemma findDependentCells_get ss base d :
  NoDup (Obj.keys (shadowCells ss)) ->
  In d (findDependentCells ss base) ->
  exists ast, Obj.get (shadowCells ss) d = Some ast /\
              isDependent ast d base = true.
Proof.
  intros Hnd. unfold findDependentCells. rewrite in_map_iff.
  intros ([k ast] & <- & Hin). apply filter_In in Hin as [Hin Hdep].
  exists ast. split; [now apply Obj_NoDup_get|exact Hdep].
Qed.

(** Only the first dependent other than the cell itself is visited by
    the loop of a call whose cell is the parent cell. *)
Lemma forDependents_live rec d dependents :
  forall h,
    (forall e, In e dependents -> e <> d -> fst (rec e e h) <> OutOfFuel) ->
    fst (forDependents rec d dependents d h) <> OutOfFuel.
Proof.
  induction dependents as [|e rest IH]; intros h Hrec; simpl;
    [discriminate|].
  rewrite String.eqb_refl. simpl.
  destruct (String.eqb_spec d e) as [<-|Hne]; simpl.
  - apply IH. intros e He. apply Hrec. now right.
  - unfold bind. specialize (Hrec e (or_introl eq_refl)).
    destruct (rec e e h) as [[v|ex|] h1]; simpl in *.
    + now rewrite forDependents_skip.
    + discriminate.
    + exfalso. apply Hrec; [congruence|reflexivity].
Qed.

Section Run.
(** The staging map of the running edit, with the new formula of
    the edited cell [c] installed: off [c], references go down the
    rank. *)
Variables (rank : string -> nat) (N : nat) (staging : Cells) (c : string).
Hypothesis staging_keys : NoDup (Obj.keys staging).
Hypothesis rank_down :
  forall x ast y,
    x <> c -> Obj.get staging x = Some ast ->
    isDependent ast x y = true ->
    y <> c -> Obj.has staging y = true -> rank y < rank x.
Hypothesis rank_below :
  forall x, x <> c -> Obj.has staging x = true -> rank x < N.

Lemma inv_grows p h h1 : grows h h1 -> inv staging c p h -> inv staging c p h1.
Proof.
  intros [Et Hm] [Hs Hc]. split; [now rewrite Et|].
  destruct Hc; auto.
Qed.

Lemma mlive_bind {A B} p (m : M A) (k : A -> M B) :
  mframed m -> mlive staging c p m -> (forall a, mlive staging c p (k a)) ->
  mlive staging c p (bind m k).
Proof.
  intros Fm Hm Hk h Hinv. unfold bind.
  specialize (Fm h). specialize (Hm h Hinv).
  destruct (m h) as [[a|e|] h1]; simpl in *.
  - apply Hk. eapply inv_grows; eauto.
  - discriminate.
  - now elim Hm.
Qed.

Lemma mlive_mapM {A B} p (f : A -> M B) (l : list A) :
  Forall (fun a => mframed (f a) /\ mlive staging c p (f a)) l ->
  mlive staging c p (mapM f l).
Proof.
  induction 1 as [|a l [Fa Ha] Hl IH].
  - intros h _. discriminate.
  - rewrite mapM_cons. apply mlive_bind; auto. intros b.
    apply mlive_bind; auto.
    + apply mframed_mapM. eapply Forall_impl; [|exact Hl]. now intros a0 [].
    + intros bs h _. discriminate.
Qed.

Lemma evaluateFormula_live n p rec :
  (forall x q, mframed (rec x q)) ->
  (forall y h,
      inv staging c p h -> y <> p -> y <> c -> Obj.has staging y = true ->
      rank y < n -> fst (rec y p h) <> OutOfFuel) ->
  forall ast base,
    (forall y, isDependent ast base y = true -> y <> c ->
               Obj.has staging y = true -> rank y < n) ->
    mlive staging c p (evaluateFormula rec base ast p).
Proof.
  intros Frec Hrec ast base.
  induction ast as [value|value|fn kids IH|kind] using Ast_kids_ind;
    intros Hrefs; simpl.
  - intros h _. discriminate.
  - destruct (String.eqb_spec (target value base) p) as [|Hne];
      intros h Hinv; [discriminate|].
    destruct (Obj.has (shadowCells (this h)) (target value base)) eqn:Hhas;
      simpl; [|discriminate].
    destruct (Obj.get (updatedCells h) (target value base)) eqn:Hmemo;
      [discriminate|].
    assert (Hc : target value base <> c).
    { intros Hc. destruct Hinv as [_ [<-|Hm]]; [contradiction|].
      unfold Obj.has in Hm. rewrite <- Hc, Hmemo in Hm. discriminate. }
    destruct Hinv as [Hs Hp]. rewrite Hs in Hhas.
    apply Hrec; auto; [now split|].
    apply Hrefs; auto. simpl. apply String.eqb_refl.
  - apply mlive_bind.
    + apply mframed_mapM. rewrite Forall_forall. intros kid _.
      now apply evaluateFormula_framed.
    + apply mlive_mapM. rewrite Forall_forall in IH |- *.
      intros kid Hin. split; [now apply evaluateFormula_framed|].
      apply IH; auto. intros y Hdep. apply Hrefs.
      eapply isDependent_kid; eauto.
    + intros args h _. destruct (FNS fn); discriminate.
  - intros h _. discriminate.
Qed.

(** The evaluation of a cell reached through references, under a
    parent cell it is not, is no deeper than its rank. *)
Lemma evaluateAndUpdate_descends n :
  forall x p h,
    inv staging c p h -> x <> p -> x <> c -> Obj.has staging x = true ->
    rank x < n -> fst (evaluateAndUpdate n x p h) <> OutOfFuel.
Proof.
  induction n as [|n IH]; intros x p h Hinv Hxp Hxc Hx Hrank; [lia|].
  simpl. destruct Hinv as [Hs Hp]. rewrite Hs.
  unfold Obj.has in Hx.
  destruct (Obj.get staging x) as [cell|] eqn:Hcell; [|discriminate].
  unfold bind at 1.
  pose proof (evaluateFormula_live n p _ (evaluateAndUpdate_framed n)
                (fun y h0 Hi Hyp Hyc Hy Hr => IH y p h0 Hi Hyp Hyc Hy Hr)
                cell x) as L.
  specialize (L (fun y Hdep Hyc Hy =>
                   Nat.lt_le_trans _ _ _
                     (rank_down x cell y Hxc Hcell Hdep Hyc Hy)
                     (proj1 (Nat.lt_succ_r _ _) Hrank))
                h (conj Hs Hp)).
  destruct (evaluateFormula _ x cell p h) as [[r|e|] h1]; simpl in *.
  - unfold bind. now rewrite forDependents_skip.
  - discriminate.
  - exact L.
Qed.

Lemma resolved_grows ast base h h1 :
  grows h h1 -> resolved staging c ast base h -> resolved staging c ast base h1.
Proof.
  intros [_ Hm] Hres y Hdep Hy. destruct (Hres y Hdep Hy). auto.
Qed.

Lemma closedh_store h x cell v :
  closedh staging c h -> Obj.get staging x = Some cell ->
  resolved staging c cell x h ->
  closedh staging c {| this := this h;
             updatedCells := Obj.set (updatedCells h) x v |}.
Proof.
  intros Hcl Hcell Hres z ast y Hz Hast Hdep Hy. simpl in *.
  destruct (String.eqb_spec z x) as [->|Hne].
  - rewrite Hcell in Hast. injection Hast as <-.
    destruct (Hres y Hdep Hy). split; auto using Obj_has_set_mono.
  - unfold Obj.has in Hz. rewrite Obj_get_set_other in Hz by assumption.
    destruct (Hcl z ast y Hz Hast Hdep Hy).
    split; auto using Obj_has_set_mono.
Qed.

Lemma mapM_closes (f : Ast CellRef -> M number) base kids :
  (forall kid, In kid kids -> mframed (f kid)) ->
  (forall kid h v h',
      In kid kids -> shadowCells (this h) = staging -> closedh staging c h ->
      f kid h = (Return v, h') ->
      closedh staging c h' /\ resolved staging c kid base h') ->
  forall h vs h',
    shadowCells (this h) = staging -> closedh staging c h ->
    mapM f kids h = (Return vs, h') ->
    closedh staging c h' /\
    forall kid, In kid kids -> resolved staging c kid base h'.
Proof.
  induction kids as [|kid kids IH]; intros Ff Hf h vs h' Hs Hcl.
  - simpl. intros [= _ <-]. split; [assumption|intros kid []].
  - rewrite mapM_cons. unfold bind.
    pose proof (Ff kid (or_introl eq_refl) h) as F.
    destruct (f kid h) as [[v|e|] h1] eqn:E; try discriminate.
    destruct (Hf kid h v h1 (or_introl eq_refl) Hs Hcl E) as [Hcl1 Hres1].
    assert (Hs1 : shadowCells (this h1) = staging)
      by (destruct F as [-> _]; exact Hs).
    assert (Fk : mframed (mapM f kids)).
    { apply mframed_mapM. rewrite Forall_forall. intros k Hk.
      apply Ff. now right. }
    specialize (Fk h1).
    destruct (mapM f kids h1) as [[vs'|e|] h2] eqn:E'; try discriminate.
    intros [= _ <-].
    destruct (IH (fun k Hk => Ff k (or_intror Hk))
                 (fun k h0 v0 h0' Hk => Hf k h0 v0 h0' (or_intror Hk))
                 h1 vs' h2 Hs1 Hcl1 E') as [Hcl2 Hres2].
    split; [assumption|]. intros k [<-|Hk]; auto.
    eapply resolved_grows; eauto.
Qed.

Lemma evaluateFormula_closes rec :
  (forall x q, mframed (rec x q)) ->
  (forall x h v h',
      x <> c -> shadowCells (this h) = staging -> closedh staging c h ->
      rec x c h = (Return v, h') ->
      closedh staging c h' /\ Obj.has (updatedCells h') x = true) ->
  forall ast base h v h',
    shadowCells (this h) = staging -> closedh staging c h ->
    evaluateFormula rec base ast c h = (Return v, h') ->
    closedh staging c h' /\ resolved staging c ast base h'.
Proof.
  intros Frec Hrec ast base.
  induction ast as [value|value|fn kids IH|kind] using Ast_kids_ind;
    intros h v h' Hs Hcl; simpl.
  - intros [= _ <-]. split; [assumption|]. intros y. discriminate.
  - destruct (String.eqb_spec (target value base) c) as [|Hne];
      [discriminate|].
    destruct (Obj.has (shadowCells (this h)) (target value base)) eqn:Hhas;
      simpl.
    + destruct (Obj.get (updatedCells h) (target value base)) eqn:Hmemo.
      * intros [= _ <-]. split; [assumption|].
        intros y Hy _. apply String.eqb_eq in Hy. subst y.
        unfold Obj.has. now rewrite Hmemo.
      * intros E. destruct (Hrec _ _ _ _ Hne Hs Hcl E) as [Hcl' Hin].
        split; [assumption|].
        intros y Hy _. apply String.eqb_eq in Hy. now subst y.
    + intros [= _ <-]. split; [assumption|].
      intros y Hy Hstaged. apply String.eqb_eq in Hy. subst y.
      rewrite Hs in Hhas. congruence.
  - unfold bind.
    destruct (mapM _ kids h) as [[args|e|] h1] eqn:E; try discriminate.
    destruct (FNS fn); [|discriminate]. intros [= _ <-].
    rewrite Forall_forall in IH.
    apply (mapM_closes _ base) in E; auto.
    + destruct E as [Hcl1 Hres]. split; [assumption|].
      intros y Hy Hstaged. simpl in Hy. apply existsb_exists in Hy.
      destruct Hy as (kid & Hin & Hy). eapply Hres; eauto.
    + intros kid _. now apply evaluateFormula_framed.
    + intros kid h0 v0 h0' Hin. now apply IH.
  - discriminate.
Qed.

Lemma evaluateAndUpdate_closes n :
  forall x h v h',
    x <> c -> shadowCells (this h) = staging -> closedh staging c h ->
    evaluateAndUpdate n x c h = (Return v, h') ->
    closedh staging c h' /\ Obj.has (updatedCells h') x = true.
Proof.
  induction n as [|n IH]; intros x h v h' Hne Hs Hcl; simpl;
    [discriminate|].
  rewrite Hs. destruct (Obj.get staging x) as [cell|] eqn:Hcell;
    [|discriminate].
  unfold bind at 1.
  pose proof (evaluateFormula_framed _ (evaluateAndUpdate_framed n)
                cell x c h) as F.
  destruct (evaluateFormula _ x cell c h) as [[r|e|] h1] eqn:E;
    try discriminate.
  destruct (evaluateFormula_closes _ (evaluateAndUpdate_framed n) IH
              cell x h r h1 Hs Hcl E) as [Hcl1 Hres].
  assert (Hs1 : shadowCells (this h1) = staging)
    by (destruct F as [-> _]; exact Hs).
  unfold bind. rewrite forDependents_skip by assumption.
  intros [= _ <-]. split.
  + now apply (closedh_store h1 x cell).
  + simpl. unfold Obj.has. now rewrite Obj_get_set_same.
Qed.

(** The evaluation of a dependent as its own parent cell, and of
    the chain of first dependents after it: [hR] is the heap the
    propagation started from, whose memoized cells none of the
    chain is among. *)
Lemma evaluateAndUpdate_chain hR :
  closedh staging c hR -> Obj.has (updatedCells hR) c = true ->
  forall n d h,
    shadowCells (this h) = staging ->
    Obj.has (updatedCells h) c = true ->
    Obj.has (updatedCells hR) d = false ->
    Obj.has staging d = true ->
    N + (N - rank d) <= n ->
    fst (evaluateAndUpdate n d d h) <> OutOfFuel.
Proof.
  intros HclR HRc.
  induction n as [|n IH]; intros d h Hs Hc HRd Hd Hn;
    assert (Hdc : d <> c) by congruence;
    pose proof (rank_below d Hdc Hd) as Hdrank; [lia|].
  simpl. rewrite Hs. pose proof Hd as Hd'. unfold Obj.has in Hd'.
  destruct (Obj.get staging d) as [cell|] eqn:Hcell; [|discriminate].
  unfold bind at 1.
  assert (L : mlive staging c d
                (evaluateFormula (evaluateAndUpdate n) d cell d)).
  { apply (evaluateFormula_live n).
    - apply evaluateAndUpdate_framed.
    - intros y h0. apply evaluateAndUpdate_descends.
    - intros y Hdep Hyc Hy.
      pose proof (rank_down d cell y Hdc Hcell Hdep Hyc Hy). lia. }
  specialize (L h (conj Hs (or_intror Hc))).
  pose proof (evaluateFormula_framed _ (evaluateAndUpdate_framed n)
                cell d d h) as F.
  destruct (evaluateFormula _ d cell d h) as [[r|e|] h1]; simpl in *;
    [|discriminate|exact L].
  destruct F as [Et Hm].
  set (h1' := {| this := this h1;
                 updatedCells := Obj.set (updatedCells h1) d r |}).
  assert (Hlive : fst (forDependents (evaluateAndUpdate n) d
                         (findDependentCells (this h1) d) d h1')
                  <> OutOfFuel).
  { apply forDependents_live. intros e He Hed.
    apply findDependentCells_get in He as (ast & Hast & Hdep);
      [|rewrite Et, Hs; exact staging_keys].
    rewrite Et, Hs in Hast.
    assert (He : Obj.has staging e = true)
      by (unfold Obj.has; now rewrite Hast).
    assert (HRe : Obj.has (updatedCells hR) e = false).
    { destruct (Obj.has (updatedCells hR) e) eqn:HRe; auto.
      destruct (HclR e ast d HRe Hast Hdep Hd). congruence. }
    assert (Hec : e <> c) by congruence.
    apply IH; auto.
    - simpl. now rewrite Et.
    - simpl. auto using Obj_has_set_mono.
    - pose proof (rank_down e ast d Hec Hast Hdep Hdc Hd).
      pose proof (rank_below e Hec He). lia. }
  unfold bind.
  destruct (forDependents _ d _ d h1') as [[u|e|] h2]; simpl in *;
    [discriminate|discriminate|now elim Hlive].
Qed.

(** The evaluation of the edited cell, at the start of [eval]. *)
Lemma evaluateAndUpdate_edited n val h0 :
  Obj.get staging c = Some val ->
  shadowCells (this h0) = staging -> updatedCells h0 = [] ->
  2 * N <= n ->
  fst (evaluateAndUpdate (S n) c c h0) <> OutOfFuel.
Proof.
  intros Hval Hs Hempty Hn. simpl. rewrite Hs, Hval. unfold bind at 1.
  assert (L : mlive staging c c
                (evaluateFormula (evaluateAndUpdate n) c val c)).
  { apply (evaluateFormula_live n).
    - apply evaluateAndUpdate_framed.
    - intros y h. apply evaluateAndUpdate_descends.
    - intros y _ Hyc Hy. pose proof (rank_below y Hyc Hy). lia. }
  specialize (L h0 (conj Hs (or_introl eq_refl))).
  assert (Hcl0 : closedh staging c h0).
  { intros x ast y Hx. rewrite Hempty in Hx. discriminate. }
  pose proof (evaluateFormula_framed _ (evaluateAndUpdate_framed n)
                val c c h0) as F.
  destruct (evaluateFormula _ c val c h0) as [[r|e|] h1] eqn:E;
    simpl in *; [|discriminate|exact L].
  destruct F as [Et Hm].
  destruct (evaluateFormula_closes _ (evaluateAndUpdate_framed n)
              (evaluateAndUpdate_closes n) val c h0 r h1 Hs Hcl0 E)
    as [Hcl1 Hres].
  set (hR := {| this := this h1;
                updatedCells := Obj.set (updatedCells h1) c r |}).
  assert (HclR : closedh staging c hR) by now apply (closedh_store h1 c val).
  assert (HRc : Obj.has (updatedCells hR) c = true)
    by (simpl; unfold Obj.has; now rewrite Obj_get_set_same).
  assert (Hlive : fst (forDependents (evaluateAndUpdate n) c
                         (findDependentCells (this h1) c) c hR)
                  <> OutOfFuel).
  { apply forDependents_live. intros e He Hec.
    apply findDependentCells_get in He as (ast & Hast & Hdep);
      [|rewrite Et, Hs; exact staging_keys].
    rewrite Et, Hs in Hast.
    assert (He : Obj.has staging e = true)
      by (unfold Obj.has; now rewrite Hast).
    assert (Hc : Obj.has staging c = true)
      by (unfold Obj.has; now rewrite Hval).
    assert (HRe : Obj.has (updatedCells hR) e = false).
    { destruct (Obj.has (updatedCells hR) e) eqn:HRe; auto.
      destruct (HclR e ast c HRe Hast Hdep Hc). congruence. }
    apply (evaluateAndUpdate_chain hR); auto.
    - simpl. now rewrite Et.
    - lia. }
  unfold bind.
  destruct (forDependents _ c _ c hR) as [[u|e|] h2]; simpl in *;
    [discriminate|discriminate|now elim Hlive].
Qed.
End Run.

(** The staging map keeps each key once through [eval], as the map
    of a new spreadsheet has them. *)
Lemma eval_keeps_staging_keys fuel cellId expr ss :
  NoDup (Obj.keys (shadowCells ss)) ->
  NoDup (Obj.keys (shadowCells (snd (eval fuel cellId expr ss)))).
Proof.
  intros Hnd. unfold eval.
  destruct (parse expr cellId) as [[val|msg code]|]; auto.
  pose proof (evaluateAndUpdate_framed fuel cellId cellId
                {| this := {| name := name ss; cells := cells ss;
                              shadowCells :=
                                Obj.set (shadowCells ss) cellId val |};
                   updatedCells := [] |}) as F.
  destruct (evaluateAndUpdate fuel cellId cellId _) as [[v|[m|m]|] h];
    simpl in *;
    try (destruct F as [-> _]; simpl; now apply Obj_NoDup_set).
  - destruct F as [-> _]. unfold coverCell. simpl.
    rewrite Obj_get_set_same. simpl. now apply Obj_NoDup_set.
  - destruct F as [p ->]. unfold recoverCell. simpl.
    destruct (Obj.get (cells ss) p); simpl; auto using Obj_NoDup_set.
Qed.

(** Termination where no cycle is staged: when the staging map, an
    object with each key once, holds no reference cycle before the
    edit, its references going down a rank below [N], every [eval]
    ends, by a result or by an exception, with calls of
    [evaluateAndUpdate] nested no deeper than 2N+1, whatever the new
    formula; and a reference that resolves to the parent cell throws
    the circular-reference exception, after [recoverCell] on the parent
    cell. *)
Theorem eval_terminates_without_staged_cycle rank N ss cellId expr :
  NoDup (Obj.keys (shadowCells ss)) ->
  ranked rank N (shadowCells ss) ->
  terminates cellId expr ss /\
  (forall fuel, 2 * N + 1 <= fuel ->
                fst (eval fuel cellId expr ss) <> OutOfFuel) /\
  (forall rec base value p h,
      target value base = p ->
      evaluateFormula rec base (Ref value) p h =
        (Throw (CircularReferenceError
                  ("Circular reference found for cell '" ++ p ++ "'")),
         {| this := recoverCell (this h) p;
            updatedCells := updatedCells h |})).
Proof.
  intros Hkeys [Hdown Hbelow].
  assert (Hlive : forall fuel, 2 * N + 1 <= fuel ->
                               fst (eval fuel cellId expr ss) <> OutOfFuel).
  { intros fuel Hfuel. unfold eval.
    destruct (parse expr cellId) as [[val|msg code]|]; try discriminate.
    destruct fuel as [|n]; [lia|].
    set (staging := Obj.set (shadowCells ss) cellId val).
    pose proof (evaluateAndUpdate_edited rank N staging cellId) as L.
    specialize (L (Obj_NoDup_set _ _ _ Hkeys)).
    assert (Hget : forall x, x <> cellId ->
                             Obj.get staging x = Obj.get (shadowCells ss) x)
      by (intros; now apply Obj_get_set_other).
    assert (Hhas : forall x, x <> cellId ->
                             Obj.has staging x = Obj.has (shadowCells ss) x)
      by (intros x Hx; unfold Obj.has; now rewrite Hget).
    specialize (L (fun x ast y Hx Hast Hdep Hy Hstaged =>
                     Hdown x ast y
                       (eq_trans (eq_sym (Hget x Hx)) Hast) Hdep
                       (eq_trans (eq_sym (Hhas y Hy)) Hstaged))).
    specialize (L (fun x Hx Hstaged =>
                     Hbelow x (eq_trans (eq_sym (Hhas x Hx)) Hstaged))).
    specialize (L n val
                  {| this := {| name := name ss; cells := cells ss;
                                shadowCells := staging |};
                     updatedCells := [] |}
                  (Obj_get_set_same _ _ _) eq_refl eq_refl).
    destruct (evaluateAndUpdate (S n) cellId cellId _) as [[v|[m|m]|] h];
      try discriminate.
    elim L; [lia|reflexivity]. }
  split; [|split].
  - exists (2 * N + 1). now apply Hlive.
  - exact Hlive.
  - intros rec base value p h Htarget. simpl.
    now rewrite Htarget, String.eqb_refl.
Qed.
End Termination.

(** ** Runs on the sample parser *)

Section SampleRuns.
Local Open Scope float_scope.
Local Existing Instance Sample.parser.

Lemma eval_syntax_error_mutates_nothing_witness :
  eval 3 "a1" "(" Sample.empty =
    (Return (errResult "SYNTAX error ..." "SYNTAX"), Sample.empty).
Proof.
  apply eval_syntax_error_mutates_nothing. left. reflexivity.
Defined.


Lemma app_operands_left_to_right_then_operator_witness :
  fst (eval 1 "a1" "-(3)" (newSpreadsheet "ss")) =
    Return (okResult [("a1"%string, -3)]) /\
  fst (eval 1 "a1" "5-2" (newSpreadsheet "ss")) =
    Return (okResult [("a1"%string, 3)]).
Proof.
  apply (proj2 (proj2 (proj2 (proj2 (proj2 (proj2 (proj2 (proj2
           (app_operands_left_to_right_then_operator
              (P := Sample.parser))))))))) "ss" 1%nat);
    [reflexivity|reflexivity|lia].
Defined.

Lemma round_trip_reached :
  let s1 := snd (eval 3 "b1" "c1" Sample.empty) in
  let s2 := snd (eval 3 "c1" "a1" s1) in
  s2 = {| name := "ss"; cells := cells (this Sample.round_trip);
          shadowCells := cells (this Sample.round_trip) |} /\
  parse "b1" "a1" = Some (okResult (Ref "b1")) /\
  Obj.set (shadowCells s2) "a1" (Ref "b1") =
    shadowCells (this Sample.round_trip).
Proof. repeat split. Qed.

Lemma ref_descends_with_unchanged_parent_witness :
  evaluateFormula (evaluateAndUpdate 3) "b1" (Ref "c1") "a1" Sample.round_trip =
    match evaluateFormula (evaluateAndUpdate 2) "c1" (Ref "a1") "a1"
            Sample.round_trip with
    | (Return result, h1) =>
        (Return result,
         {| this := this h1;
            updatedCells := Obj.set (updatedCells h1) "c1" result |})
    | (Throw e, h1) => (Throw e, h1)
    | (OutOfFuel, h1) => (OutOfFuel, h1)
    end.
Proof.
  apply (ref_descends_with_unchanged_parent (P := Sample.parser)
           2%nat "b1"%string "c1"%string "a1"%string Sample.round_trip
           (Ref "a1"));
    [discriminate|reflexivity|reflexivity].
Defined.

(** C4, as stated: in the edit of a1 to b1, the reference to c1 in
    the formula of b1 is met under the parent cell a1; the formula of
    c1 evaluated under that parent cell throws for a1, evaluated
    under the parent cell b1 it throws for b1. *)
Lemma ref_descends_with_holder_as_parent_counterexample :
  ~ ref_descends_with (fun base _ => base).
Proof.
  intros H.
  specialize (H 2%nat "b1"%string "c1"%string "a1"%string
                Sample.round_trip (Ref "a1")).
  vm_compute in H.
  specialize (H ltac:(discriminate) eq_refl eq_refl). discriminate H.
Qed.

Lemma circular_edit_of_uncommitted_cell_stays_staged_witness :
  fst (eval 1 "a1" "a1+1" Sample.empty) =
    Return (errResult "cyclic dependency ..." "CIRCULAR_REF") /\
  Obj.get (shadowCells (snd (eval 1 "a1" "a1+1" Sample.empty))) "a1" =
    Some (App "+" [Ref "a1"; Num 1]) /\
  Obj.get (cells (snd (eval 1 "a1" "a1+1" Sample.empty))) "a1" = None.
Proof.
  apply (circular_edit_of_uncommitted_cell_stays_staged
           (P := Sample.parser) Sample.empty 1
           "a1" "a1+1" "+" "a1"%string [Num 1]);
    [reflexivity|reflexivity|lia|reflexivity].
Defined.

Lemma circular_edit_breaks_staging_equals_committed_witness :
  Obj.same (shadowCells Sample.empty) (cells Sample.empty) /\
  fst (eval 1 "a1" "a1+1" Sample.empty) =
    Return (errResult "cyclic dependency ..." "CIRCULAR_REF") /\
  ~ Obj.same (shadowCells (snd (eval 1 "a1" "a1+1" Sample.empty)))
             (cells (snd (eval 1 "a1" "a1+1" Sample.empty))).
Proof.
  split; [intros k; reflexivity|].
  apply (circular_edit_breaks_staging_equals_committed
           (P := Sample.parser) Sample.empty 1
           "a1" "a1+1" "+" "a1"%string [Num 1]);
    [reflexivity|reflexivity|lia|intros k; reflexivity|reflexivity].
Defined.

Lemma eval_omits_indirect_dependent_witness :
  let s1 := snd (eval 3 "b1" "a1+1" (newSpreadsheet "ss")) in
  let s2 := snd (eval 3 "c1" "b1+1" s1) in
  fst (eval 3 "c1" "b1+1" s1) = Return (okResult [("c1"%string, 2)]) /\
  isDependent (App "+" [Ref "b1"; Num 1]) "c1" "b1" = true /\
  isDependent (App "+" [Ref "a1"; Num 1]) "b1" "a1" = true /\
  fst (eval 3 "a1" "5" s2) =
    Return (okResult [("a1"%string, 5); ("b1"%string, 6)]).
Proof.
  apply (eval_omits_indirect_dependent (P := Sample.parser)
           "ss" 3 "a1"%string "b1"%string);
    [reflexivity|reflexivity|reflexivity|reflexivity|reflexivity|lia].
Defined.

Lemma rejected_edit_of_b1_stays_staged_witness :
  let s1 := snd (eval 2 "a1" "b1+1" (newSpreadsheet "ss")) in
  let s2 := snd (eval 2 "b1" "a1+1" s1) in
  (fst (eval 2 "a1" "a1+1" Sample.empty) =
     Return (errResult "cyclic dependency ..." "CIRCULAR_REF") /\
   cells (snd (eval 2 "a1" "a1+1" Sample.empty)) = cells Sample.empty) /\
  fst (eval 2 "a1" "b1+1" (newSpreadsheet "ss")) =
    Return (okResult [("a1"%string, 1)]) /\
  fst (eval 2 "b1" "a1+1" s1) =
    Return (errResult "cyclic dependency ..." "CIRCULAR_REF") /\
  cells s2 = cells s1 /\
  Obj.get (shadowCells s1) "b1" = None /\
  Obj.get (shadowCells s2) "b1" = Some (App "+" [Ref "a1"; Num 1]) /\
  fst (eval 2 "a1" "7" s2) =
    Return (okResult [("a1"%string, 7); ("b1"%string, 8)]).
Proof.
  apply (rejected_edit_of_b1_stays_staged (P := Sample.parser) "ss" 2
           "a1"%string "b1"%string "a1"%string Sample.empty);
    [reflexivity|reflexivity|reflexivity|reflexivity|reflexivity
    |reflexivity|reflexivity|lia].
Defined.

Lemma self_loop_recurses fuel :
  evaluateAndUpdate fuel "a1" "b1" Sample.self_loop =
    (OutOfFuel, Sample.self_loop).
Proof.
  induction fuel as [|fuel IH]; [reflexivity|].
  simpl. unfold bind. simpl. now rewrite IH.
Qed.

(** C7, on the code: on an empty spreadsheet the edit of a1 to a1+1
    is rejected as circular and, a1 having no committed formula for
    [recoverCell] to copy back, stays staged; the edit of b1 to a1 that
    follows then never ends: the reference of a1 to itself is not the
    parent cell b1, so no cycle fault is raised and the calls of
    [evaluateAndUpdate] are nested deeper than any fuel. *)
Theorem eval_recurses_after_rejected_edit :
  fst (eval 1 "a1" "a1+1" Sample.empty) =
    Return (errResult "cyclic dependency ..." "CIRCULAR_REF") /\
  Obj.get (shadowCells (snd (eval 1 "a1" "a1+1" Sample.empty))) "a1" =
    Some (App "+" [Ref "a1"; Num 1]) /\
  Obj.get (cells (snd (eval 1 "a1" "a1+1" Sample.empty))) "a1" = None /\
  parse "a1" "b1" = Some (okResult (Ref "a1")) /\
  ~ terminates "b1" "a1" (snd (eval 1 "a1" "a1+1" Sample.empty)).
Proof.
  do 4 (split; [reflexivity|]). intros [fuel Hfuel]. apply Hfuel.
  destruct fuel as [|fuel]; [reflexivity|].
  change (snd (eval 1 "a1" "a1+1" Sample.empty))
    with {| name := "ss"; cells := [];
            shadowCells := [("a1"%string, App "+" [Ref "a1"; Num 1])] |}.
  unfold eval. simpl. unfold bind.
  change {| this := _; updatedCells := [] |} with Sample.self_loop.
  now rewrite self_loop_recurses.
Qed.

Lemma eval_terminates_without_staged_cycle_witness :
  terminates "a1" "5" (snd (eval 2 "b1" "a1+1" Sample.empty)) /\
  fst (eval 5 "a1" "5" (snd (eval 2 "b1" "a1+1" Sample.empty)))
    <> OutOfFuel.
Proof.
  assert (H : ranked (fun x => if String.eqb x "b1" then 1%nat else 0%nat) 2
                (shadowCells (snd (eval 2 "b1" "a1+1" Sample.empty)))).
  { split.
    - intros x ast y Hget Hdep Hhas. exfalso.
      unfold Obj.has in Hhas. simpl in Hget, Hhas.
      destruct (String.eqb_spec x "b1") as [->|_]; [|discriminate].
      destruct (String.eqb_spec y "b1") as [->|_]; [|discriminate].
      injection Hget as <-. vm_compute in Hdep. discriminate.
    - intros x _. destruct (String.eqb x "b1"); lia. }
  assert (K : NoDup (Obj.keys
                       (shadowCells (snd (eval 2 "b1" "a1+1" Sample.empty))))).
  { simpl. repeat constructor. simpl. tauto. }
  destruct (eval_terminates_without_staged_cycle (P := Sample.parser)
              _ 2 _ "a1" "5" K H) as (T & L & _).
  split; [exact T|]. apply L. simpl. lia.
Defined.
End SampleRuns.

(** * More on the engine *)

Section Edits.
Context {P : ExprParser}.

Lemma Obj_get_delete_other {V} (o : Obj.t V) k k' :
  k <> k' -> Obj.get (Obj.delete o k') k = Obj.get o k.
Proof.
  intros Hne. induction o as [|[k0 v0] o IH]; simpl; [reflexivity|].
  destruct (String.eqb_spec k' k0) as [->|Hk]; simpl.
  - destruct (String.eqb_spec k k0); congruence.
  - now rewrite IH.
Qed.

Lemma Obj_get_fold_delete_other {V} ks : forall (o : Obj.t V) k,
  ~ In k ks -> Obj.get (fold_left Obj.delete ks o) k = Obj.get o k.
Proof.
  induction ks as [|k' ks IH]; simpl; intros o k Hnot; [reflexivity|].
  rewrite IH by tauto. apply Obj_get_delete_other. intros ->. tauto.
Qed.

Lemma findDependentCells2_not_base ss base :
  ~ In base (findDependentCells2 ss base).
Proof.
  unfold findDependentCells2. rewrite in_map_iff.
  intros ([k ast] & Hk & Hin). simpl in Hk. subst k.
  apply filter_In in Hin as [_ Hin]. simpl in Hin.
  now rewrite String.eqb_refl in Hin.
Qed.

(** A call of [evaluateAndUpdate] that returns has evaluated the staged
    formula of its cell and leaves the cell memoized. *)
Lemma evaluateAndUpdate_Return_inv fuel cellId p h v h' :
  evaluateAndUpdate fuel cellId p h = (Return v, h') ->
  exists n cell h1,
    fuel = S n /\ Obj.get (shadowCells (this h)) cellId = Some cell /\
    evaluateFormula (evaluateAndUpdate n) cellId cell p h = (Return v, h1) /\
    this h' = this h /\ Obj.has (updatedCells h') cellId = true.
Proof.
  destruct fuel as [|n]; simpl; [discriminate|].
  destruct (Obj.get (shadowCells (this h)) cellId) as [cell|];
    [|discriminate].
  unfold bind at 1.
  pose proof (evaluateFormula_framed _ (evaluateAndUpdate_framed n)
                cell cellId p h) as F.
  destruct (evaluateFormula _ cellId cell p h) as [[r|e|] h1] eqn:E;
    try discriminate.
  destruct F as [Et _]. unfold bind.
  set (h1' := {| this := this h1;
                 updatedCells := Obj.set (updatedCells h1) cellId r |}).
  pose proof (forDependents_framed _ (evaluateAndUpdate_framed n)
                (findDependentCells (this h1) cellId) cellId p h1') as F'.
  destruct (forDependents _ cellId _ p h1') as [[[]|e|] h2]; try discriminate.
  intros [= <- <-]. destruct F' as [Et' Hm].
  exists n, cell, h1. repeat split; auto.
  - rewrite Et'. exact Et.
  - apply Hm. simpl. unfold Obj.has. now rewrite Obj_get_set_same.
Qed.

(** What a successful [eval] has done. *)
Lemma eval_ok_inv fuel cellId expr ss updates ss' :
  eval fuel cellId expr ss = (Return (okResult updates), ss') ->
  exists val v h,
    parse expr cellId = Some (okResult val) /\
    evaluateAndUpdate fuel cellId cellId
      {| this := stage ss cellId val; updatedCells := [] |} = (Return v, h) /\
    this h = stage ss cellId val /\
    updates = fold_left Obj.delete
                (findDependentCells2 (stage ss cellId val) cellId)
                (updatedCells h) /\
    ss' = {| name := name ss; cells := Obj.set (cells ss) cellId val;
             shadowCells := Obj.set (shadowCells ss) cellId val |}.
Proof.
  unfold eval. fold (stage ss cellId).
  destruct (parse expr cellId) as [[val|msg code]|]; try discriminate.
  fold (stage ss cellId val).
  destruct (evaluateAndUpdate fuel cellId cellId _) as [[v|[m|m]|] h] eqn:E;
    try discriminate.
  assert (Ht : this h = stage ss cellId val)
    by (apply (evaluateAndUpdate_this _ _ _ _ _ _ E); discriminate).
  rewrite Ht. intros [= <- <-].
  exists val, v, h. repeat split; auto.
  unfold coverCell, stage. simpl. now rewrite Obj_get_set_same.
Qed.

(** What is left of the spreadsheet after [eval], however it ends: the
    spreadsheet before, or the staged one, committed or with one cell
    recovered. *)
Lemma eval_spreadsheet_after fuel cellId expr ss :
  snd (eval fuel cellId expr ss) = ss \/
  exists val,
    parse expr cellId = Some (okResult val) /\
    (snd (eval fuel cellId expr ss) = stage ss cellId val \/
     snd (eval fuel cellId expr ss) = coverCell (stage ss cellId val) cellId \/
     exists p, snd (eval fuel cellId expr ss) =
                 recoverCell (stage ss cellId val) p).
Proof.
  unfold eval.
  destruct (parse expr cellId) as [[val|msg code]|]; auto.
  right. exists val. split; [reflexivity|]. fold (stage ss cellId val).
  pose proof (evaluateAndUpdate_framed fuel cellId cellId
                {| this := stage ss cellId val; updatedCells := [] |}) as F.
  destruct (evaluateAndUpdate fuel cellId cellId _) as [[v|[m|m]|] h];
    simpl in *; try (destruct F as [-> _]; auto).
  destruct F as [p ->]. eauto.
Qed.

(** Off the edited cell [eval] writes no committed entry. *)
Lemma eval_cells_elsewhere fuel cellId expr ss k :
  k <> cellId ->
  Obj.get (cells (snd (eval fuel cellId expr ss))) k = Obj.get (cells ss) k.
Proof.
  intros Hk. unfold eval.
  destruct (parse expr cellId) as [[val|msg code]|]; auto.
  pose proof (evaluateAndUpdate_cells fuel cellId cellId
                {| this := stage ss cellId val; updatedCells := [] |}) as C.
  pose proof (evaluateAndUpdate_framed fuel cellId cellId
                {| this := stage ss cellId val; updatedCells := [] |}) as F.
  unfold stage in *.
  destruct (evaluateAndUpdate fuel cellId cellId _) as [[v|[m|m]|] h];
    simpl in *; try (now rewrite C).
  destruct F as [-> _]. unfold coverCell. simpl.
  rewrite Obj_get_set_same. simpl. now apply Obj_get_set_other.
Qed.

(** X1: [eval] writes the committed map on success only, and then only
    the entry of the edited cell, which becomes the parsed formula. *)
Theorem eval_commits_edited_cell_only fuel cellId expr ss :
  (forall k, k <> cellId ->
             Obj.get (cells (snd (eval fuel cellId expr ss))) k =
               Obj.get (cells ss) k) /\
  ((forall updates, fst (eval fuel cellId expr ss)
                      <> Return (okResult updates)) ->
   cells (snd (eval fuel cellId expr ss)) = cells ss) /\
  (forall updates,
      fst (eval fuel cellId expr ss) = Return (okResult updates) ->
      exists val,
        parse expr cellId = Some (okResult val) /\
        cells (snd (eval fuel cellId expr ss)) =
          Obj.set (cells ss) cellId val).
Proof.
  split; [|split].
  - intros k Hk. now apply eval_cells_elsewhere.
  - intros Hnot. unfold eval in *.
    destruct (parse expr cellId) as [[val|msg code]|]; auto.
    pose proof (evaluateAndUpdate_cells fuel cellId cellId
                  {| this := stage ss cellId val; updatedCells := [] |}) as C.
    unfold stage in *.
    destruct (evaluateAndUpdate fuel cellId cellId _) as [[v|[m|m]|] h];
      simpl in *; auto.
    now elim (Hnot _ eq_refl).
  - intros updates Hok.
    destruct (eval fuel cellId expr ss) as [o ss'] eqn:E. simpl in *.
    subst o. apply eval_ok_inv in E as (val & v & h & Hp & _ & _ & _ & ->).
    now exists val.
Qed.

(** X2: the update map of a successful [eval] has an entry for the
    edited cell, and every other entry of it is for a staged cell whose
    formula refers to the edited cell directly; the edited cell is then
    staged and committed with the parsed formula. *)
Theorem eval_update_map_entries fuel cellId expr ss updates ss' :
  eval fuel cellId expr ss = (Return (okResult updates), ss') ->
  Obj.has updates cellId = true /\
  (forall k,
      Obj.has updates k = true -> k <> cellId ->
      exists ast, Obj.get (shadowCells ss') k = Some ast /\
                  isDependent ast k cellId = true) /\
  exists val,
    parse expr cellId = Some (okResult val) /\
    Obj.get (shadowCells ss') cellId = Some val /\
    Obj.get (cells ss') cellId = Some val.
Proof.
  intros E. split; [|split].
  - apply eval_ok_inv in E as (val & v & h & Hp & E & Ht & -> & ->).
    apply evaluateAndUpdate_Return_inv in E as (_ & _ & _ & _ & _ & _ & _ & Hm).
    unfold Obj.has in *. rewrite Obj_get_fold_delete_other; [exact Hm|].
    apply findDependentCells2_not_base.
  - intros k Hk Hne.
    destruct (eval_returns_direct_dependents_only _ _ _ _ _ _ E k Hk);
      [contradiction|assumption].
  - apply eval_ok_inv in E as (val & v & h & Hp & E & Ht & -> & ->).
    exists val. simpl. now rewrite !Obj_get_set_same.
Qed.

(** What every call of [eval] keeps, every sequence of calls keeps. *)
Lemma runEdits_keeps (I : Spreadsheet -> Prop) :
  (forall fuel cellId expr ss, I ss -> I (snd (eval fuel cellId expr ss))) ->
  forall edits ss, I ss -> I (runEdits edits ss).
Proof.
  intros Hstep edits. unfold runEdits.
  induction edits as [|[[fuel cellId] expr] edits IH]; intros ss Hss;
    [exact Hss|].
  simpl. apply IH, Hstep, Hss.
Qed.

(** With a parser that keeps its contract, [eval] keeps every staged
    and every committed formula evaluable. *)
Lemma eval_keeps_all_evaluable fuel cellId expr ss :
  keeps_contract ->
  committed_evaluable ss /\
  (forall x ast, Obj.get (shadowCells ss) x = Some ast ->
                 evaluable ast = true) ->
  committed_evaluable (snd (eval fuel cellId expr ss)) /\
  (forall x ast,
      Obj.get (shadowCells (snd (eval fuel cellId expr ss))) x = Some ast ->
      evaluable ast = true).
Proof.
  intros Hcontract [Hce Hse].
  split; [now apply eval_keeps_committed_evaluable|].
  assert (Hstage : forall val x ast,
             parse expr cellId = Some (okResult val) ->
             Obj.get (Obj.set (shadowCells ss) cellId val) x = Some ast ->
             evaluable ast = true).
  { intros val x ast Hp. destruct (String.eqb_spec x cellId) as [->|Hne].
    - rewrite Obj_get_set_same. intros [= <-]. exact (Hcontract _ _ _ Hp).
    - rewrite Obj_get_set_other by assumption. apply Hse. }
  destruct (eval_spreadsheet_after fuel cellId expr ss)
    as [->|(val & Hp & [->|[->|[p ->]]])]; auto.
  - simpl. intros x ast. now apply Hstage.
  - unfold coverCell, stage. simpl. rewrite Obj_get_set_same. simpl.
    intros x ast. now apply Hstage.
  - unfold recoverCell, stage. simpl.
    destruct (Obj.get (cells ss) p) as [committed|] eqn:Hc; simpl;
      intros x ast; [|now apply Hstage].
    destruct (String.eqb_spec x p) as [->|Hne].
    + rewrite Obj_get_set_same. intros [= <-]. exact (Hce _ _ Hc).
    + rewrite Obj_get_set_other by assumption. now apply Hstage.
Qed.

(** X3: a rejection of the promise of [eval] that is not the
    exhaustion of the call stack is never the circular-reference
    exception and comes, after a successful parse, from a formula in
    staging, the new one included, that has an operator other than
    + - * / min max or a node that is no number, reference or
    application; and with a parser that keeps its contract no call of
    [eval] in any sequence of calls on a new spreadsheet is rejected so:
    it returns a result or exhausts the call stack. *)
Theorem eval_throws_only_on_unevaluable :
  (forall fuel cellId expr ss e,
      fst (eval fuel cellId expr ss) = Throw e ->
      exists msg val,
        e = Error msg /\ parse expr cellId = Some (okResult val) /\
        (evaluable val = false \/
         exists k ast, Obj.get (shadowCells ss) k = Some ast /\
                       evaluable ast = false)) /\
  (keeps_contract ->
   forall edits nm fuel cellId expr e,
     fst (eval fuel cellId expr (runEdits edits (newSpreadsheet nm)))
       <> Throw e).
Proof.
  assert (Hthrow : forall fuel cellId expr ss e,
             fst (eval fuel cellId expr ss) = Throw e ->
             exists msg val,
               e = Error msg /\ parse expr cellId = Some (okResult val) /\
               (evaluable val = false \/
                exists k ast, Obj.get (shadowCells ss) k = Some ast /\
                              evaluable ast = false)).
  { intros fuel cellId expr ss e. unfold eval.
    destruct (parse expr cellId) as [[val|msg code]|]; try discriminate.
    destruct (evaluateAndUpdate fuel cellId cellId _)
      as [[v|[m|m]|] h] eqn:E; try discriminate.
    simpl. intros [= <-]. exists m, val. repeat split.
    apply evaluateAndUpdate_Error in E.
    - destruct E as (y & ast & Hy & Hbad). simpl in Hy.
      destruct (String.eqb_spec y cellId) as [->|Hne].
      + rewrite Obj_get_set_same in Hy. injection Hy as <-. now left.
      + rewrite Obj_get_set_other in Hy by assumption. right. eauto.
    - simpl. unfold Obj.has. now rewrite Obj_get_set_same. }
  split; [exact Hthrow|].
  intros Hcontract edits nm fuel cellId expr e He.
  assert (Hall : committed_evaluable (runEdits edits (newSpreadsheet nm)) /\
                 (forall x ast,
                     Obj.get (shadowCells (runEdits edits (newSpreadsheet nm))) x
                       = Some ast -> evaluable ast = true)).
  { apply (runEdits_keeps
             (fun ss => committed_evaluable ss /\
                        (forall x ast, Obj.get (shadowCells ss) x = Some ast ->
                                       evaluable ast = true))).
    - intros f c x ss. now apply eval_keeps_all_evaluable.
    - split; intros x ast; discriminate. }
  destruct Hall as [_ Hse].
  destruct (Hthrow _ _ _ _ _ He) as (msg & val & _ & Hp & [Hbad|Hbad]).
  - rewrite (Hcontract _ _ _ Hp) in Hbad. discriminate.
  - destruct Hbad as (k & ast & Hk & Hbad).
    rewrite (Hse _ _ Hk) in Hbad. discriminate.
Qed.

(** X4: a failure of [eval] that returns an error result has the code
    SYNTAX, with the spreadsheet untouched, or the code CIRCULAR_REF,
    with the committed map untouched; no other code is returned. *)
Theorem eval_error_codes fuel cellId expr ss msg code :
  fst (eval fuel cellId expr ss) = Return (errResult msg code) ->
  (code = "SYNTAX" /\ msg = "SYNTAX error ..." /\
   snd (eval fuel cellId expr ss) = ss) \/
  (code = "CIRCULAR_REF" /\ msg = "cyclic dependency ..." /\
   cells (snd (eval fuel cellId expr ss)) = cells ss).
Proof.
  unfold eval.
  destruct (parse expr cellId) as [[val|m c]|];
    try (intros [= <- <-]; now left).
  pose proof (evaluateAndUpdate_cells fuel cellId cellId
                {| this := stage ss cellId val; updatedCells := [] |}) as C.
  unfold stage in C.
  destruct (evaluateAndUpdate fuel cellId cellId _) as [[v|[m|m]|] h];
    try discriminate.
  simpl in *. intros [= <- <-]. right. auto.
Qed.

(** X5: with the staging map and the committed map holding the same
    entries before, [eval] changes the staged formula of no cell but
    the edited one, however it ends. *)
Theorem eval_keeps_other_formulas fuel cellId expr ss k :
  Obj.same (shadowCells ss) (cells ss) ->
  k <> cellId ->
  Obj.get (shadowCells (snd (eval fuel cellId expr ss))) k =
    Obj.get (shadowCells ss) k /\
  Obj.get (cells (snd (eval fuel cellId expr ss))) k = Obj.get (cells ss) k.
Proof.
  intros Hsame Hk. split; [|now apply eval_cells_elsewhere].
  destruct (eval_spreadsheet_after fuel cellId expr ss)
    as [->|(val & _ & [-> | [-> | [p ->]]])]; auto.
  - simpl. now apply Obj_get_set_other.
  - unfold coverCell. simpl. rewrite Obj_get_set_same. simpl.
    now apply Obj_get_set_other.
  - unfold recoverCell. simpl.
    destruct (Obj.get (cells ss) p) as [old|] eqn:Hp; simpl;
      [|now apply Obj_get_set_other].
    destruct (String.eqb_spec k p) as [->|Hne].
    + rewrite Obj_get_set_same. now rewrite Hsame.
    + rewrite Obj_get_set_other by assumption. now apply Obj_get_set_other.
Qed.

(** X6: after a successful [eval] no chain of staged references leads
    from the edited cell back to it. *)
Theorem eval_success_leaves_no_cycle fuel cellId expr ss updates ss' :
  eval fuel cellId expr ss = (Return (okResult updates), ss') ->
  ~ clos_trans string (refers (shadowCells ss')) cellId cellId.
Proof.
  intros E. apply eval_ok_inv in E as (val & v & h & _ & E & _ & _ & ->).
  simpl. set (staging := Obj.set (shadowCells ss) cellId val).
  apply evaluateAndUpdate_Return_inv in E
    as (n & cell & h1 & _ & Hcell & EF & _ & _).
  simpl in Hcell. fold staging in Hcell.
  assert (Hcl0 : closedh staging cellId
                   {| this := stage ss cellId val; updatedCells := [] |}).
  { intros x ast y Hx. discriminate. }
  assert (Hs : shadowCells
                 (this {| this := stage ss cellId val; updatedCells := [] |})
               = staging) by reflexivity.
  destruct (evaluateFormula_closes staging cellId _
              (evaluateAndUpdate_framed n)
              (evaluateAndUpdate_closes staging cellId n)
              cell cellId _ v h1 Hs Hcl0 EF) as [Hcl Hres].
  assert (Hreach : forall y,
             clos_trans string (refers staging) cellId y ->
             Obj.has (updatedCells h1) y = true /\ y <> cellId).
  { intros y Hy. apply clos_trans_tn1 in Hy.
    induction Hy as [y (ast & Hast & Hdep & Hy)
                    |y z (ast & Hast & Hdep & Hz) _ [IHm _]].
    - rewrite Hcell in Hast. injection Hast as <-. now apply Hres.
    - now apply (Hcl y ast z). }
  intros Hcycle. now destruct (Hreach _ Hcycle).
Qed.


Lemma findDependentCells_iff ss base k :
  NoDup (Obj.keys (shadowCells ss)) ->
  In k (findDependentCells ss base) <->
  exists ast, Obj.get (shadowCells ss) k = Some ast /\
              isDependent ast k base = true.
Proof.
  intros Hnd. split; [now apply findDependentCells_get|].
  intros (ast & Hast & Hdep). unfold findDependentCells.
  apply in_map_iff. exists (k, ast). split; [reflexivity|].
  apply filter_In. split; [now apply Obj_get_In|exact Hdep].
Qed.

Lemma findDependentCells2_iff ss base k :
  NoDup (Obj.keys (shadowCells ss)) ->
  In k (findDependentCells2 ss base) <->
  k <> base /\
  exists ast, Obj.get (shadowCells ss) k = Some ast /\
              isDependent ast k base = false.
Proof.
  intros Hnd. unfold findDependentCells2. rewrite in_map_iff. split.
  - intros ([k' ast] & <- & Hin). apply filter_In in Hin as [Hin Hf].
    simpl in *. apply andb_prop in Hf as [Hk Hdep].
    apply negb_true_iff in Hk, Hdep. split.
    + now apply String.eqb_neq.
    + exists ast. split; [now apply Obj_NoDup_get|exact Hdep].
  - intros (Hk & ast & Hast & Hdep). exists (k, ast).
    split; [reflexivity|]. apply filter_In. split; [now apply Obj_get_In|].
    simpl. rewrite Hdep. apply String.eqb_neq in Hk. now rewrite Hk.
Qed.

(** X8: the two scans split the staged cells other than the base
    cell: [findDependentCells2] returns those [findDependentCells] does
    not return, and never the base cell. *)
Theorem dependency_scans_split ss base k :
  NoDup (Obj.keys (shadowCells ss)) ->
  Obj.has (shadowCells ss) k = true ->
  ~ In base (findDependentCells2 ss base) /\
  (k <> base ->
   (In k (findDependentCells2 ss base) <->
    ~ In k (findDependentCells ss base))).
Proof.
  intros Hnd Hk. split; [apply findDependentCells2_not_base|]. intros Hne.
  rewrite findDependentCells_iff, findDependentCells2_iff by assumption.
  unfold Obj.has in Hk.
  destruct (Obj.get (shadowCells ss) k) as [ast|]; [|discriminate].
  destruct (isDependent ast k base) eqn:Hdep; split.
  - intros (_ & a & [= <-] & Ha). congruence.
  - intros Hnot. elim Hnot. eauto.
  - intros _ (a & [= <-] & Ha). congruence.
  - intros _. split; eauto.
Qed.

Lemma Obj_set_get_id {V} (o : Obj.t V) k v :
  Obj.get o k = Some v -> Obj.set o k v = o.
Proof.
  induction o as [|[k' v'] o IH]; simpl; [discriminate|].
  destruct (String.eqb_spec k k') as [->|_].
  - now intros [= ->].
  - intros H. now rewrite IH.
Qed.

(** X9: commit and rollback undo nothing of each other: for a staged
    cell, [recoverCell] after [coverCell] leaves the staging map as it
    was, and for a committed cell, [coverCell] after [recoverCell]
    leaves the committed map as it was. *)
Theorem cover_and_recover ss cellId :
  (Obj.has (shadowCells ss) cellId = true ->
   shadowCells (recoverCell (coverCell ss cellId) cellId) = shadowCells ss /\
   Obj.get (cells (coverCell ss cellId)) cellId =
     Obj.get (shadowCells ss) cellId) /\
  (Obj.has (cells ss) cellId = true ->
   cells (coverCell (recoverCell ss cellId) cellId) = cells ss /\
   Obj.get (shadowCells (recoverCell ss cellId)) cellId =
     Obj.get (cells ss) cellId).
Proof.
  unfold Obj.has, coverCell, recoverCell. split; intros H.
  - destruct (Obj.get (shadowCells ss) cellId) as [ast|] eqn:Hs;
      [|discriminate].
    simpl. rewrite Obj_get_set_same. simpl.
    now rewrite Obj_set_get_id.
  - destruct (Obj.get (cells ss) cellId) as [ast|] eqn:Hc; [|discriminate].
    simpl. rewrite Obj_get_set_same. simpl.
    now rewrite Obj_set_get_id.
Qed.

(** X10: a run of [evaluateAndUpdate] never writes the committed map
    or the name, changes the staging map only when it throws the
    circular-reference exception, by [recoverCell] on one cell, and
    drops no cell from the memo. *)
Theorem evaluateAndUpdate_writes fuel cellId p h :
  cells (this (snd (evaluateAndUpdate fuel cellId p h))) = cells (this h) /\
  name (this (snd (evaluateAndUpdate fuel cellId p h))) = name (this h) /\
  ((forall msg, fst (evaluateAndUpdate fuel cellId p h)
                  <> Throw (CircularReferenceError msg)) ->
   this (snd (evaluateAndUpdate fuel cellId p h)) = this h /\
   forall k, Obj.has (updatedCells h) k = true ->
             Obj.has (updatedCells (snd (evaluateAndUpdate fuel cellId p h))) k
               = true) /\
  (forall msg,
      fst (evaluateAndUpdate fuel cellId p h)
        = Throw (CircularReferenceError msg) ->
      exists q, this (snd (evaluateAndUpdate fuel cellId p h)) =
                  recoverCell (this h) q).
Proof.
  split; [apply evaluateAndUpdate_cells|].
  pose proof (evaluateAndUpdate_framed fuel cellId p h) as F.
  destruct (evaluateAndUpdate fuel cellId p h) as [o h']. simpl.
  assert (Hrec : forall q, name (recoverCell (this h) q) = name (this h)).
  { intros q. unfold recoverCell. now destruct (Obj.get (cells (this h)) q). }
  split; [|split].
  - destruct o as [v|[m|m]|]; simpl in F;
      try (destruct F as [-> _]; reflexivity).
    destruct F as [q ->]. apply Hrec.
  - intros Hnot. destruct o as [v|[m|m]|]; simpl in F;
      try (destruct F as [Et Hm]; now split).
    now elim (Hnot m).
  - intros msg [= ->]. exact F.
Qed.

(** X11: every operator of [FNS] reads its first two arguments only:
    operands after the second change no result. *)
Theorem FNS_ignores_extra_arguments operator f a b rest :
  FNS operator = Some f -> f (a :: b :: rest) = f [a; b].
Proof.
  unfold FNS.
  repeat match goal with
         | |- context [String.eqb operator ?s] => destruct (String.eqb operator s)
         end; intros [= <-]; reflexivity.
Qed.
End Edits.

(** * What [eval] reads, and what every sequence of edits keeps *)

Section Reads.
Context {P : ExprParser}.

Lemma agree_refl h : agree h h.
Proof. now split. Qed.

Lemma msame_ret {A} (a : A) : msame (ret a).
Proof. intros h1 h2 Ha. simpl. now split. Qed.

Lemma msame_throw {A} (e : Exn) : msame (throw e : M A).
Proof. intros h1 h2 Ha. reflexivity. Qed.

Lemma alike_bind {A B} (r1 r2 : Outcome A * Heap) (k : A -> M B) :
  alike r1 r2 -> (forall a, msame (k a)) ->
  alike (match r1 with
         | (Return a, h') => k a h'
         | (Throw e, h') => (Throw e, h')
         | (OutOfFuel, h') => (OutOfFuel, h')
         end)
        (match r2 with
         | (Return a, h') => k a h'
         | (Throw e, h') => (Throw e, h')
         | (OutOfFuel, h') => (OutOfFuel, h')
         end).
Proof.
  intros Hr Hk.
  destruct r1 as [[a1|e1|] h1'], r2 as [[a2|e2|] h2']; simpl in *;
    try contradiction; auto.
  destruct Hr as [-> Ha]. now apply Hk.
Qed.

Lemma msame_bind {A B} (m : M A) (k : A -> M B) :
  msame m -> (forall a, msame (k a)) -> msame (bind m k).
Proof.
  intros Hm Hk h1 h2 Ha. unfold bind. apply alike_bind; auto.
Qed.

Lemma msame_mapM {A B} (f : A -> M B) (l : list A) :
  Forall (fun a => msame (f a)) l -> msame (mapM f l).
Proof.
  induction 1 as [|a l Ha _ IH]; simpl.
  - apply msame_ret.
  - apply msame_bind; [exact Ha|]. intros b.
    apply msame_bind; [exact IH|]. intros bs. apply msame_ret.
Qed.

Lemma evaluateFormula_same (rec : string -> string -> M number) :
  (forall x p, msame (rec x p)) ->
  forall ast base p, msame (evaluateFormula rec base ast p).
Proof.
  intros Hrec ast base p.
  induction ast as [value|value|fn kids IH|kind] using Ast_kids_ind; simpl.
  - apply msame_ret.
  - destruct (String.eqb (target value base) p).
    + intros h1 h2 Ha. reflexivity.
    + intros h1 h2 Ha. pose proof Ha as [Hs Hu]. rewrite Hs, Hu.
      destruct (negb (Obj.has (shadowCells (this h2)) (target value base)));
        [now split|].
      destruct (Obj.get (updatedCells h2) (target value base));
        [now split|].
      now apply Hrec.
  - apply msame_bind; [now apply msame_mapM|].
    intros args. destruct (FNS fn); [apply msame_ret|apply msame_throw].
  - apply msame_throw.
Qed.

Lemma forDependents_same (rec : string -> string -> M number) :
  (forall x p, msame (rec x p)) ->
  forall dependents cellId p, msame (forDependents rec cellId dependents p).
Proof.
  intros Hrec dependents cellId.
  induction dependents as [|d rest IH]; intros p; simpl.
  - apply msame_ret.
  - destruct (String.eqb cellId p && negb (String.eqb cellId d)); auto.
    apply msame_bind; auto.
Qed.

Lemma evaluateAndUpdate_same fuel :
  forall cellId p, msame (evaluateAndUpdate fuel cellId p).
Proof.
  induction fuel as [|fuel IH]; intros cellId p h1 h2 Ha; simpl.
  - exact I.
  - pose proof Ha as [Hs Hu]. rewrite Hs.
    destruct (Obj.get (shadowCells (this h2)) cellId) as [cell|];
      [|reflexivity].
    unfold bind at 1 3. apply alike_bind.
    + now apply evaluateFormula_same.
    + intros result g1 g2 [Gs Gu].
      unfold findDependentCells. rewrite Gs.
      apply msame_bind.
      * now apply forDependents_same.
      * intros _. apply msame_ret.
      * split; simpl; [exact Gs|now rewrite Gu].
Qed.

(** A successful [eval] keeps that every committed cell is staged. *)
Lemma eval_keeps_committed_staged fuel cellId expr ss :
  (forall k, Obj.has (cells ss) k = true ->
             Obj.has (shadowCells ss) k = true) ->
  forall k, Obj.has (cells (snd (eval fuel cellId expr ss))) k = true ->
            Obj.has (shadowCells (snd (eval fuel cellId expr ss))) k = true.
Proof.
  intros H k.
  destruct (eval_spreadsheet_after fuel cellId expr ss)
    as [->|(val & _ & [->|[->|[p ->]]])]; auto.
  - simpl. intros Hk. now apply Obj_has_set_mono, H.
  - unfold coverCell, stage. simpl. rewrite Obj_get_set_same. simpl.
    unfold Obj.has. destruct (String.eqb_spec k cellId) as [->|Hne].
    + now rewrite !Obj_get_set_same.
    + rewrite !Obj_get_set_other by assumption. apply H.
  - unfold recoverCell, stage. simpl.
    destruct (Obj.get (cells ss) p); simpl; intros Hk;
      repeat apply Obj_has_set_mono; now apply H.
Qed.

(** X12: whatever the sequence of calls of [eval] on a new spreadsheet,
    and however each of them ends, every committed formula is one the
    evaluator can evaluate (numbers, references and known operators
    only), every committed cell is staged, and the staging object lists
    no cell twice. *)
Theorem edits_keep_committed_evaluable edits nm :
  let ss := runEdits edits (newSpreadsheet nm) in
  committed_evaluable ss /\
  (forall k, Obj.has (cells ss) k = true ->
             Obj.has (shadowCells ss) k = true) /\
  NoDup (Obj.keys (shadowCells ss)).
Proof.
  simpl. unfold runEdits.
  assert (H0 : committed_evaluable (newSpreadsheet nm) /\
               (forall k, Obj.has (cells (newSpreadsheet nm)) k = true ->
                          Obj.has (shadowCells (newSpreadsheet nm)) k = true) /\
               NoDup (Obj.keys (shadowCells (newSpreadsheet nm)))).
  { split; [|split].
    - intros x ast. discriminate.
    - intros k. discriminate.
    - constructor. }
  revert H0. generalize (newSpreadsheet nm).
  induction edits as [|[[fuel cellId] expr] edits IH]; intros ss H0;
    [exact H0|].
  simpl. apply IH. destruct H0 as (Hce & Hsub & Hnd). split; [|split].
  - now apply eval_keeps_committed_evaluable.
  - now apply eval_keeps_committed_staged.
  - now apply eval_keeps_staging_keys.
Qed.

(** X13: the result of [eval] is computed from the staging map alone:
    two spreadsheets with the same staged formulas give the same result
    (or the same exception) for the same edit, whatever their committed
    maps and their names. *)
Theorem eval_result_reads_staging_only fuel cellId expr ss1 ss2 :
  shadowCells ss1 = shadowCells ss2 ->
  fst (eval fuel cellId expr ss1) = fst (eval fuel cellId expr ss2).
Proof.
  intros Hs. unfold eval.
  destruct (parse expr cellId) as [[val|msg code]|]; auto.
  assert (A : alike
    (evaluateAndUpdate fuel cellId cellId
       {| this := {| name := name ss1; cells := cells ss1;
                     shadowCells := Obj.set (shadowCells ss1) cellId val |};
          updatedCells := [] |})
    (evaluateAndUpdate fuel cellId cellId
       {| this := {| name := name ss2; cells := cells ss2;
                     shadowCells := Obj.set (shadowCells ss2) cellId val |};
          updatedCells := [] |})).
  { apply evaluateAndUpdate_same. split; simpl; [now rewrite Hs|reflexivity]. }
  destruct (evaluateAndUpdate fuel cellId cellId _) as [[v1|[m1|m1]|] h1];
    destruct (evaluateAndUpdate fuel cellId cellId _) as [[v2|[m2|m2]|] h2];
    simpl in *; try contradiction; try discriminate; try reflexivity.
  - destruct A as [_ [Es Eu]].
    unfold findDependentCells2. now rewrite Es, Eu.
  - now injection A as ->.
Qed.

(** X14: a successful edit is idempotent: the same call of [eval] on
    the spreadsheet it left returns the same update map and leaves the
    spreadsheet as it is. *)
Theorem eval_success_idempotent fuel cellId expr ss updates ss' :
  eval fuel cellId expr ss = (Return (okResult updates), ss') ->
  eval fuel cellId expr ss' = (Return (okResult updates), ss').
Proof.
  intros E.
  apply eval_ok_inv in E as (val & v & h & Hp & E & Ht & -> & ->).
  unfold eval. rewrite Hp. simpl.
  rewrite (Obj_set_get_id (Obj.set (shadowCells ss) cellId val) cellId val)
    by apply Obj_get_set_same.
  pose proof (evaluateAndUpdate_same fuel cellId cellId
    {| this := stage ss cellId val; updatedCells := [] |}
    {| this := {| name := name ss;
                  cells := Obj.set (cells ss) cellId val;
                  shadowCells := Obj.set (shadowCells ss) cellId val |};
       updatedCells := [] |} (conj eq_refl eq_refl)) as A.
  rewrite E in A.
  destruct (evaluateAndUpdate fuel cellId cellId
              {| this := {| name := name ss;
                            cells := Obj.set (cells ss) cellId val;
                            shadowCells := Obj.set (shadowCells ss) cellId val |};
                 updatedCells := [] |}) as [[v2|e2|] h2] eqn:E2;
    simpl in A; try contradiction.
  destruct A as [<- [As Au]].
  assert (Ht2 : this h2 =
                {| name := name ss;
                   cells := Obj.set (cells ss) cellId val;
                   shadowCells := Obj.set (shadowCells ss) cellId val |})
    by (apply (evaluateAndUpdate_this _ _ _ _ _ _ E2); discriminate).
  rewrite <- Au, Ht2. unfold findDependentCells2, coverCell, stage. simpl.
  rewrite Obj_get_set_same.
  now rewrite (Obj_set_get_id (Obj.set (cells ss) cellId val) cellId val)
    by apply Obj_get_set_same.
Qed.

(** X23: a call of [eval] that returns, without a circular-reference
    failure, keeps the staging map and the committed map holding the
    same entries: on success both receive the new formula, on a syntax
    error neither is written. *)
Theorem eval_keeps_staging_equal_committed fuel cellId expr ss r ss' :
  Obj.same (shadowCells ss) (cells ss) ->
  eval fuel cellId expr ss = (Return r, ss') ->
  (forall msg, r <> errResult msg "CIRCULAR_REF") ->
  Obj.same (shadowCells ss') (cells ss').
Proof.
  intros Hsame E Hr. destruct r as [updates|msg code].
  - exact (eval_ok_keeps_staging_equal_committed _ _ _ _ _ _ Hsame E).
  - unfold eval in E.
    destruct (parse expr cellId) as [[val|m c]|];
      try (injection E as _ _ <-; exact Hsame).
    destruct (evaluateAndUpdate fuel cellId cellId _) as [[v|[m|m]|] h];
      try discriminate.
    injection E as <- <- _. now elim (Hr "cyclic dependency ...").
Qed.
End Reads.

(** * The web services: HTTP statuses of errors *)

Section WsFacts.
Context {STATUS : Ws.Status}.
Local Open Scope Z_scope.

(** An error has a code that [ERROR_MAP] maps to the server error. *)
Lemma errStatus_server_error err :
  Ws.code err = Some "DB"%string \/ Ws.code err = Some "INTERNAL"%string ->
  Ws.errStatus err = Some Ws.INTERNAL_SERVER_ERROR.
Proof. unfold Ws.errStatus. now intros [-> | ->]. Qed.

Lemma nextStatus_server_error status err :
  Ws.errStatus err = Some Ws.INTERNAL_SERVER_ERROR ->
  Ws.nextStatus status err = Ws.INTERNAL_SERVER_ERROR.
Proof. unfold Ws.nextStatus. intros ->. now rewrite Z.eqb_refl. Qed.

Lemma nextStatus_keeps_server_error err :
  Ws.INTERNAL_SERVER_ERROR <> 0 ->
  Ws.nextStatus Ws.INTERNAL_SERVER_ERROR err = Ws.INTERNAL_SERVER_ERROR.
Proof.
  intros Hne. unfold Ws.nextStatus.
  destruct (Ws.errStatus err) as [st|]; [|reflexivity].
  apply Z.eqb_neq in Hne. rewrite Hne, andb_false_r.
  destruct (Z.eqb_spec st Ws.INTERNAL_SERVER_ERROR); auto.
Qed.

Lemma fold_nextStatus_server_error errors :
  Ws.INTERNAL_SERVER_ERROR <> 0 ->
  fold_left Ws.nextStatus errors Ws.INTERNAL_SERVER_ERROR =
    Ws.INTERNAL_SERVER_ERROR.
Proof.
  intros Hne. induction errors as [|err errors IH]; simpl; [reflexivity|].
  now rewrite nextStatus_keeps_server_error.
Qed.

(** X15: one error with the code DB or INTERNAL anywhere among the
    errors makes the status the server error, whatever the other errors
    are. *)
Theorem getHttpStatus_server_error_dominates errors err :
  Ws.INTERNAL_SERVER_ERROR <> 0 ->
  In err errors ->
  Ws.code err = Some "DB"%string \/ Ws.code err = Some "INTERNAL"%string ->
  Ws.getHttpStatus errors = Ws.INTERNAL_SERVER_ERROR.
Proof.
  intros Hne Hin Hcode. apply in_split in Hin as (before & after & ->).
  unfold Ws.getHttpStatus. rewrite fold_left_app. simpl.
  rewrite nextStatus_server_error by now apply errStatus_server_error.
  rewrite fold_nextStatus_server_error by assumption.
  apply Z.eqb_neq in Hne. now rewrite Hne.
Qed.

(** The status stays 0 over errors without a code that [ERROR_MAP]
    has. *)
Lemma fold_nextStatus_unknown errors :
  0 < Ws.INTERNAL_SERVER_ERROR ->
  (forall err code, In err errors -> Ws.code err = Some code ->
                    Ws.ERROR_MAP code = None) ->
  fold_left Ws.nextStatus errors 0 = 0.
Proof.
  intros Hpos. induction errors as [|err errors IH]; intros Hunknown;
    simpl; [reflexivity|].
  assert (Hstep : Ws.nextStatus 0 err = 0).
  { unfold Ws.nextStatus, Ws.errStatus.
    destruct (Ws.code err) as [code|] eqn:Hcode.
    - now rewrite (Hunknown err code (or_introl eq_refl) Hcode).
    - destruct (Z.eqb_spec (-1) Ws.INTERNAL_SERVER_ERROR) as [E|_];
        [lia|reflexivity]. }
  rewrite Hstep. apply IH. intros e c He. apply Hunknown. now right.
Qed.

(** X16: errors none of which has a code of [ERROR_MAP], no error at
    all included, give the status of a bad request; so does an
    [Error] that was thrown, and so do the SYNTAX and CIRCULAR_REF
    errors of the engine. *)
Theorem getHttpStatus_defaults_to_bad_request errors :
  0 < Ws.INTERNAL_SERVER_ERROR ->
  (forall err code, In err errors -> Ws.code err = Some code ->
                    Ws.ERROR_MAP code = None) ->
  Ws.getHttpStatus errors = Ws.BAD_REQUEST /\
  (forall message,
      Ws.status (Ws.mapResultErrors (Ws.ThrownError message)) =
        Ws.BAD_REQUEST) /\
  (forall m1 m2,
      Ws.getHttpStatus [Ws.mkErr m1 (Some "SYNTAX"%string);
                        Ws.mkErr m2 (Some "CIRCULAR_REF"%string)] =
        Ws.BAD_REQUEST).
Proof.
  intros Hpos Hunknown.
  assert (Hdefault : forall l,
             (forall err code, In err l -> Ws.code err = Some code ->
                               Ws.ERROR_MAP code = None) ->
             Ws.getHttpStatus l = Ws.BAD_REQUEST).
  { intros l Hl. unfold Ws.getHttpStatus.
    now rewrite fold_nextStatus_unknown. }
  split; [now apply Hdefault|]. split.
  - intros message. simpl. apply Hdefault.
    intros err code [<-|[]] [= <-]. reflexivity.
  - intros m1 m2. apply Hdefault.
    intros err code [<-|[<-|[]]] [= <-]; reflexivity.
Qed.

(** Once the status is that of a code other than the server error, the
    errors after it do not change it unless one maps to the server
    error. *)
Lemma fold_nextStatus_settled errors status :
  status <> 0 ->
  (forall err, In err errors ->
               Ws.errStatus err <> Some Ws.INTERNAL_SERVER_ERROR) ->
  fold_left Ws.nextStatus errors status = status.
Proof.
  intros Hne. induction errors as [|err errors IH]; intros Hnone; simpl;
    [reflexivity|].
  assert (Hstep : Ws.nextStatus status err = status).
  { unfold Ws.nextStatus.
    pose proof (Hnone err (or_introl eq_refl)) as Herr.
    destruct (Ws.errStatus err) as [st|]; [|reflexivity].
    apply Z.eqb_neq in Hne. rewrite Hne, andb_false_r.
    destruct (Z.eqb_spec st Ws.INTERNAL_SERVER_ERROR); congruence. }
  rewrite Hstep. apply IH. intros e He. apply Hnone. now right.
Qed.

(** X17: short of an error that maps to the server error, the first
    error whose code [ERROR_MAP] has decides the status: errors before
    it without such a code and errors after it count for nothing. *)
Theorem getHttpStatus_first_known_code before err after code status :
  0 < Ws.INTERNAL_SERVER_ERROR ->
  0 < status ->
  (forall e c, In e before -> Ws.code e = Some c -> Ws.ERROR_MAP c = None) ->
  Ws.code err = Some code ->
  Ws.ERROR_MAP code = Some status ->
  (forall e, In e after ->
             Ws.errStatus e <> Some Ws.INTERNAL_SERVER_ERROR) ->
  Ws.getHttpStatus (before ++ err :: after) = status.
Proof.
  intros Hpos Hstatus Hbefore Hcode Hmap Hafter.
  unfold Ws.getHttpStatus. rewrite fold_left_app. simpl.
  rewrite fold_nextStatus_unknown by assumption.
  assert (Hstep : Ws.nextStatus 0 err = status).
  { unfold Ws.nextStatus, Ws.errStatus. rewrite Hcode, Hmap.
    apply Z.ltb_lt in Hstatus. rewrite Hstatus. simpl.
    now destruct (Z.eqb_spec status Ws.INTERNAL_SERVER_ERROR). }
  rewrite Hstep, fold_nextStatus_settled by (assumption || lia).
  destruct (Z.eqb_spec status 0); [lia|reflexivity].
Qed.

Lemma errStatus_range err st :
  Ws.errStatus err = Some st ->
  st = -1 \/
  In st [Ws.CONFLICT; Ws.NOT_FOUND; Ws.BAD_REQUEST; Ws.UNAUTHORIZED;
         Ws.INTERNAL_SERVER_ERROR].
Proof.
  unfold Ws.errStatus, Ws.ERROR_MAP.
  destruct (Ws.code err) as [code|]; [|intros [= <-]; now left].
  repeat match goal with
         | |- context [String.eqb code ?s] => destruct (String.eqb code s)
         end; intros [= <-]; right; simpl; auto 10.
Qed.

Lemma fold_nextStatus_range errors : forall status,
  status = 0 \/
  In status [Ws.CONFLICT; Ws.NOT_FOUND; Ws.BAD_REQUEST; Ws.UNAUTHORIZED;
             Ws.INTERNAL_SERVER_ERROR] ->
  fold_left Ws.nextStatus errors status = 0 \/
  In (fold_left Ws.nextStatus errors status)
     [Ws.CONFLICT; Ws.NOT_FOUND; Ws.BAD_REQUEST; Ws.UNAUTHORIZED;
      Ws.INTERNAL_SERVER_ERROR].
Proof.
  induction errors as [|err errors IH]; intros status Hstatus; simpl;
    [exact Hstatus|].
  apply IH. unfold Ws.nextStatus.
  destruct (Ws.errStatus err) as [st|] eqn:Hst; [|exact Hstatus].
  destruct (Z.eqb_spec st Ws.INTERNAL_SERVER_ERROR) as [->|_].
  - right. simpl. auto 10.
  - destruct (Z.ltb_spec 0 st); simpl; [|exact Hstatus].
    destruct (Z.eqb_spec status 0); [|exact Hstatus].
    apply errStatus_range in Hst as [->|Hin]; [lia|now right].
Qed.

(** X18: the envelope of [mapResultErrors] is never a success, carries
    the errors it was given, and has for status one of the five
    statuses of [ERROR_MAP], whatever the errors. *)
Theorem mapResultErrors_envelope err :
  Ws.isOk (Ws.mapResultErrors err) = false /\
  (forall errors, err = Ws.ThrownResult errors ->
                  Ws.errors (Ws.mapResultErrors err) = errors) /\
  In (Ws.status (Ws.mapResultErrors err))
     [Ws.CONFLICT; Ws.NOT_FOUND; Ws.BAD_REQUEST; Ws.UNAUTHORIZED;
      Ws.INTERNAL_SERVER_ERROR].
Proof.
  split; [reflexivity|]. split; [now intros errors ->|].
  unfold Ws.mapResultErrors, Ws.getHttpStatus. simpl.
  match goal with
  | |- context [fold_left Ws.nextStatus ?l 0] =>
      destruct (fold_nextStatus_range l 0 (or_introl eq_refl)) as [->|Hin];
        [simpl; auto 10|]
  end.
  destruct (Z.eqb_spec (fold_left Ws.nextStatus
                          match err with
                          | Ws.ThrownError message =>
                              [Ws.mkErr message (Some "UNKNOWN"%string)]
                          | Ws.ThrownResult errors => errors
                          end 0) 0); simpl; auto 10.
Qed.
End WsFacts.

(** * The browser side: what the page shows *)

Section ClientFacts.
Variable numberToString : number -> string.

Lemma Obj_set_set_same {V} (o : Obj.t V) k v :
  Obj.set (Obj.set o k v) k v = Obj.set o k v.
Proof. apply Obj_set_get_id, Obj_get_set_same. Qed.

Lemma Obj_get_delete_same {V} (o : Obj.t V) k :
  NoDup (Obj.keys o) -> Obj.get (Obj.delete o k) k = None.
Proof.
  unfold Obj.keys. induction o as [|[k' v'] o IH]; simpl; intros Hnd;
    [reflexivity|].
  inversion Hnd as [|? ? Hnotin Hnd']; subst.
  destruct (String.eqb_spec k k') as [->|Hne]; simpl.
  - destruct (Obj.get o k') as [v|] eqn:Hget; [|reflexivity].
    elim Hnotin. apply in_map_iff. exists (k', v).
    split; [reflexivity|now apply Obj_get_In].
  - destruct (String.eqb_spec k k'); [contradiction|now apply IH].
Qed.

(** X19: [updateCells] leaves the cell that has the focus and every
    cell without an update exactly as they are, changes no id and no
    data-expr, gives every other cell the text of its new value as text
    and as data-value, and does nothing more when it is run again with
    the same updates. *)
Theorem updateCells_changes focused updates document :
  Forall2
    (fun cell cell' =>
       Client.id cell' = Client.id cell /\
       Client.getAttribute cell' "data-expr" =
         Client.getAttribute cell "data-expr" /\
       (focused = Some (Client.id cell) \/
        Obj.get updates (Client.id cell) = None -> cell' = cell) /\
       (forall value,
           focused <> Some (Client.id cell) ->
           Obj.get updates (Client.id cell) = Some value ->
           Client.textContent cell' = numberToString value /\
           Client.getAttribute cell' "data-value" =
             Some (numberToString value)))
    document (Client.updateCells numberToString focused updates document) /\
  Client.updateCells numberToString focused updates
    (Client.updateCells numberToString focused updates document) =
    Client.updateCells numberToString focused updates document.
Proof.
  split.
  - induction document as [|cell document IH]; simpl; constructor; auto.
    clear IH.
    destruct (Obj.get updates (Client.id cell)) as [value|] eqn:Hup.
    + destruct (match focused with
                | Some f => negb (String.eqb f (Client.id cell))
                | None => true
                end) eqn:Hf.
      * assert (Hne : focused <> Some (Client.id cell)).
        { intros ->. now rewrite String.eqb_refl in Hf. }
        split; [reflexivity|]. split; [|split].
        -- unfold Client.getAttribute. simpl.
           now apply Obj_get_set_other.
        -- intros [Heq|Hnone]; [contradiction|discriminate].
        -- intros v _ [= <-]. split; [reflexivity|].
           unfold Client.getAttribute. simpl. apply Obj_get_set_same.
      * assert (Heq : focused = Some (Client.id cell)).
        { destruct focused as [f|]; [|discriminate].
          apply negb_false_iff, String.eqb_eq in Hf. now subst f. }
        split; [reflexivity|]. split; [reflexivity|]. split; [reflexivity|].
        intros v Hne. contradiction.
    + split; [reflexivity|]. split; [reflexivity|]. split; [reflexivity|].
      intros v _. discriminate.
  - unfold Client.updateCells. rewrite map_map. apply map_ext.
    intros cell.
    destruct (Obj.get updates (Client.id cell)) as [value|] eqn:Hup;
      [|now rewrite Hup].
    destruct (match focused with
              | Some f => negb (String.eqb f (Client.id cell))
              | None => true
              end) eqn:Hf; simpl; rewrite Hup, Hf; [|reflexivity].
    unfold Client.setTextContent, Client.setAttribute. simpl.
    now rewrite Obj_set_set_same.
Qed.

(** X20: with the rows of a dump, [load] leaves a cell that has no row
    as it is; a cell that has rows takes the first of them, those
    after it counting for nothing: its text and data-value are the
    text of the value of that row, its data-expr the formula; and when
    the cell gets the focus next, it shows that formula if the formula
    is not empty. *)
Theorem loadRows_first_row data document :
  Forall2
    (fun cell cell' =>
       Client.id cell' = Client.id cell /\
       ((forall expr value, ~ In (Client.id cell, expr, value) data) ->
        cell' = cell) /\
       (forall before expr value after,
           data = before ++ (Client.id cell, expr, value) :: after ->
           (forall e v, ~ In (Client.id cell, e, v) before) ->
           Client.textContent cell' = numberToString value /\
           Client.getAttribute cell' "data-expr" = Some expr /\
           Client.getAttribute cell' "data-value" =
             Some (numberToString value) /\
           (expr <> EmptyString ->
            Client.textContent (snd (Client.focusCell cell')) = expr)))
    document (Client.loadRows numberToString data document).
Proof.
  induction document as [|cell document IH]; simpl; constructor; auto.
  clear IH.
  destruct (find _ data) as [[[cid expr] value]|] eqn:Hfind.
  - pose proof Hfind as Hin. apply find_some in Hin as [Hin Hid].
    simpl in Hid. apply String.eqb_eq in Hid. subst cid.
    split; [reflexivity|]. split.
    + intros Hnone. now elim (Hnone expr value).
    + intros before expr' value' after -> Hbefore.
      assert (Hrow : (expr', value') = (expr, value)).
      { clear Hin. induction before as [|[[c e] v] before IHb]; simpl in *.
        - rewrite String.eqb_refl in Hfind. now injection Hfind as -> ->.
        - destruct (String.eqb_spec c (Client.id cell)) as [->|_].
          + elim (Hbefore e v). now left.
          + apply IHb; auto. intros e0 v0 H0. apply (Hbefore e0 v0).
            now right. }
      injection Hrow as -> ->.
      assert (Hexpr : Client.getAttribute
                        (Client.setAttribute
                           (Client.setAttribute
                              (Client.setTextContent cell
                                 (numberToString value)) "data-expr" expr)
                           "data-value" (numberToString value))
                        "data-expr" = Some expr).
      { unfold Client.getAttribute. simpl.
        rewrite Obj_get_set_other by discriminate. apply Obj_get_set_same. }
      repeat split; auto.
      * unfold Client.getAttribute. simpl. apply Obj_get_set_same.
      * intros Hne. unfold Client.focusCell. rewrite Hexpr. simpl.
        destruct expr; [now elim Hne|reflexivity].
  - split; [reflexivity|]. split; [reflexivity|].
    intros before expr value after -> _. exfalso.
    pose proof (find_none _ _ Hfind (Client.id cell, expr, value)
                  (in_elt _ _ _)) as Hrow.
    simpl in Hrow. rewrite String.eqb_refl in Hrow. discriminate.
Qed.

(** X21: after [clearCellData] every cell, its attribute names being
    distinct as in any element, has its id and its other attributes as
    before, an empty text, no data-expr and no data-value, and shows an
    empty text when it gets the focus. *)
Theorem clearCellData_empties document :
  Forall (fun cell => NoDup (Obj.keys (Client.attributes cell))) document ->
  Forall2
    (fun cell cell' =>
       Client.id cell' = Client.id cell /\
       Client.textContent cell' = EmptyString /\
       Client.getAttribute cell' "data-expr" = None /\
       Client.getAttribute cell' "data-value" = None /\
       (forall name,
           name <> "data-expr"%string -> name <> "data-value"%string ->
           Client.getAttribute cell' name = Client.getAttribute cell name) /\
       Client.textContent (snd (Client.focusCell cell')) = EmptyString)
    document (Client.clearCellData document).
Proof.
  induction 1 as [|cell document Hnd _ IH]; simpl; constructor; auto.
  assert (Hexpr : Obj.get (Obj.delete (Obj.delete (Client.attributes cell)
                                         "data-expr") "data-value")
                    "data-expr" = None).
  { rewrite Obj_get_delete_other by discriminate.
    now apply Obj_get_delete_same. }
  assert (Hvalue : Obj.get (Obj.delete (Obj.delete (Client.attributes cell)
                                          "data-expr") "data-value")
                     "data-value" = None).
  { apply Obj_get_delete_same. now apply Obj_NoDup_delete. }
  unfold Client.focusCell, Client.getAttribute. simpl.
  rewrite Hexpr, Hvalue. repeat split; auto.
  intros name H1 H2. now rewrite !Obj_get_delete_other.
Qed.

(** X22: [resetCellContent] puts the previous formula and the previous
    value, or the empty string for one that is missing or empty, back
    as data-expr and data-value, keeps the id, and shows the previous
    value if there is one and else the previous formula; when the cell
    gets the focus next it shows the previous formula if there is one
    and else the previous value. *)
Theorem resetCellContent_restores cell :
  let prevExpr := Client.getAttribute cell "data-prev-expr" in
  let prevValue := Client.getAttribute cell "data-prev-value" in
  let cell' := Client.resetCellContent cell in
  Client.id cell' = Client.id cell /\
  Client.getAttribute cell' "data-expr" =
    Some (Client.orElse prevExpr EmptyString) /\
  Client.getAttribute cell' "data-value" =
    Some (Client.orElse prevValue EmptyString) /\
  Client.textContent cell' =
    Client.orElse prevValue (Client.orElse prevExpr EmptyString) /\
  Client.textContent (snd (Client.focusCell cell')) =
    Client.orElse prevExpr (Client.orElse prevValue EmptyString).
Proof.
  cbv zeta.
  assert (Hexpr : Client.getAttribute (Client.resetCellContent cell)
                    "data-expr" =
                  Some (Client.orElse
                          (Client.getAttribute cell "data-prev-expr")
                          EmptyString)).
  { unfold Client.resetCellContent, Client.getAttribute. simpl.
    rewrite Obj_get_set_other by discriminate. apply Obj_get_set_same. }
  assert (Hvalue : Client.getAttribute (Client.resetCellContent cell)
                     "data-value" =
                   Some (Client.orElse
                           (Client.getAttribute cell "data-prev-value")
                           EmptyString)).
  { unfold Client.resetCellContent, Client.getAttribute. simpl.
    apply Obj_get_set_same. }
  repeat split; auto.
  unfold Client.focusCell. rewrite Hexpr, Hvalue. simpl.
  destruct (Client.getAttribute cell "data-prev-expr") as [[|a e]|];
    destruct (Client.getAttribute cell "data-prev-value") as [[|b v]|];
    reflexivity.
Qed.
End ClientFacts.

(** * More runs on the sample parser, the package's statuses and a page *)

Section MoreRuns.
Local Open Scope float_scope.
Local Existing Instance Sample.parser.

Lemma eval_commits_edited_cell_only_witness :
  exists val,
    parse "5" "a1" = Some (okResult val) /\
    cells (snd (eval 2 "a1" "5" b1_on_a1)) =
      Obj.set (cells b1_on_a1) "a1" val.
Proof.
  apply (proj2 (proj2 (eval_commits_edited_cell_only
                         (P := Sample.parser) 2 "a1" "5" b1_on_a1))
           [("a1"%string, 5); ("b1"%string, 6)]).
  reflexivity.
Defined.

Lemma eval_update_map_entries_witness :
  eval 2 "a1" "5" b1_on_a1 =
    (Return (okResult [("a1"%string, 5); ("b1"%string, 6)]),
     snd (eval 2 "a1" "5" b1_on_a1)) /\
  Obj.has [("a1"%string, 5); ("b1"%string, 6)] "a1" = true /\
  (forall k,
      Obj.has [("a1"%string, 5); ("b1"%string, 6)] k = true -> k <> "a1"%string ->
      exists ast,
        Obj.get (shadowCells (snd (eval 2 "a1" "5" b1_on_a1))) k = Some ast /\
        isDependent ast k "a1" = true) /\
  exists val,
    parse "5" "a1" = Some (okResult val) /\
    Obj.get (shadowCells (snd (eval 2 "a1" "5" b1_on_a1))) "a1" = Some val /\
    Obj.get (cells (snd (eval 2 "a1" "5" b1_on_a1))) "a1" = Some val.
Proof.
  split; [reflexivity|].
  apply (eval_update_map_entries (P := Sample.parser) 2 "a1" "5" b1_on_a1).
  reflexivity.
Defined.

Lemma eval_error_codes_witness :
  fst (eval 1 "a1" "a1" Sample.empty) =
    Return (errResult "cyclic dependency ..." "CIRCULAR_REF") /\
  (("CIRCULAR_REF" = "SYNTAX" /\ "cyclic dependency ..." = "SYNTAX error ..." /\
    snd (eval 1 "a1" "a1" Sample.empty) = Sample.empty) \/
   ("CIRCULAR_REF" = "CIRCULAR_REF" /\
    "cyclic dependency ..." = "cyclic dependency ..." /\
    cells (snd (eval 1 "a1" "a1" Sample.empty)) = cells Sample.empty))%string.
Proof.
  split; [reflexivity|].
  apply (eval_error_codes (P := Sample.parser) 1 "a1" "a1" Sample.empty).
  reflexivity.
Defined.

Lemma eval_keeps_other_formulas_witness :
  Obj.same (shadowCells Sample.empty) (cells Sample.empty) /\
  Obj.get (shadowCells (snd (eval 1 "a1" "a1+1" Sample.empty))) "b1" =
    Obj.get (shadowCells Sample.empty) "b1" /\
  Obj.get (cells (snd (eval 1 "a1" "a1+1" Sample.empty))) "b1" =
    Obj.get (cells Sample.empty) "b1".
Proof.
  split; [intros k; reflexivity|].
  apply (eval_keeps_other_formulas (P := Sample.parser)
           1 "a1" "a1+1" Sample.empty "b1");
    [intros k; reflexivity|discriminate].
Defined.

Lemma eval_success_leaves_no_cycle_witness :
  eval 2 "a1" "5" b1_on_a1 =
    (Return (okResult [("a1"%string, 5); ("b1"%string, 6)]),
     snd (eval 2 "a1" "5" b1_on_a1)) /\
  ~ clos_trans string
      (refers (shadowCells (snd (eval 2 "a1" "5" b1_on_a1)))) "a1" "a1".
Proof.
  split; [reflexivity|].
  apply (eval_success_leaves_no_cycle (P := Sample.parser)
           2 "a1" "5" b1_on_a1 [("a1"%string, 5); ("b1"%string, 6)]).
  reflexivity.
Defined.


Lemma dependency_scans_split_witness :
  Obj.has (shadowCells (this Sample.round_trip)) "b1" = true /\
  ~ In "a1"%string (findDependentCells2 (this Sample.round_trip) "a1") /\
  ("b1"%string <> "a1"%string ->
   (In "b1"%string (findDependentCells2 (this Sample.round_trip) "a1") <->
    ~ In "b1"%string (findDependentCells (this Sample.round_trip) "a1"))).
Proof.
  split; [reflexivity|].
  apply (dependency_scans_split (P := Sample.parser)
           (this Sample.round_trip) "a1" "b1"); [|reflexivity].
  simpl. repeat constructor; simpl; intuition discriminate.
Defined.

Lemma cover_and_recover_witness :
  shadowCells (recoverCell (coverCell (this Sample.round_trip) "a1") "a1") =
    shadowCells (this Sample.round_trip) /\
  Obj.get (cells (coverCell (this Sample.round_trip) "a1")) "a1" =
    Obj.get (shadowCells (this Sample.round_trip)) "a1".
Proof.
  apply (proj1 (cover_and_recover (P := Sample.parser)
                  (this Sample.round_trip) "a1")).
  reflexivity.
Defined.

Lemma evaluateAndUpdate_writes_witness :
  exists q,
    this (snd (evaluateAndUpdate 3 "a1" "a1" Sample.round_trip)) =
      recoverCell (this Sample.round_trip) q.
Proof.
  apply (proj2 (proj2 (proj2 (evaluateAndUpdate_writes
                                (P := Sample.parser)
                                3 "a1" "a1" Sample.round_trip)))
           "Circular reference found for cell 'a1'"%string).
  reflexivity.
Defined.

Lemma FNS_ignores_extra_arguments_witness :
  exists f, FNS "max" = Some f /\ f [1; 2; 3] = f [1; 2].
Proof.
  eexists. split; [reflexivity|].
  apply (FNS_ignores_extra_arguments "max" _ 1 2 [3]). reflexivity.
Defined.

Lemma eval_result_reads_staging_only_witness :
  fst (eval 3 "a1" "b1" (this Sample.round_trip)) =
  fst (eval 3 "a1" "b1"
         {| name := "other"; cells := [];
            shadowCells := shadowCells (this Sample.round_trip) |}).
Proof.
  apply (eval_result_reads_staging_only (P := Sample.parser)). reflexivity.
Defined.

Lemma eval_success_idempotent_witness :
  eval 2 "a1" "5" (snd (eval 2 "a1" "5" b1_on_a1)) =
    (Return (okResult [("a1"%string, 5); ("b1"%string, 6)]),
     snd (eval 2 "a1" "5" b1_on_a1)).
Proof.
  apply (eval_success_idempotent (P := Sample.parser) 2 "a1" "5" b1_on_a1).
  reflexivity.
Defined.

Lemma eval_keeps_staging_equal_committed_witness :
  Obj.same (shadowCells Sample.empty) (cells Sample.empty) /\
  Obj.same (shadowCells (snd (eval 2 "a1" "5" Sample.empty)))
           (cells (snd (eval 2 "a1" "5" Sample.empty))).
Proof.
  split; [intros k; reflexivity|].
  apply (eval_keeps_staging_equal_committed (P := Sample.parser)
           2 "a1" "5" Sample.empty (okResult [("a1"%string, 5)]));
    [intros k; reflexivity|reflexivity|discriminate].
Defined.
End MoreRuns.

Section StatusRuns.
Local Open Scope Z_scope.
Local Existing Instance Ws.httpStatus.

Lemma getHttpStatus_server_error_dominates_witness :
  Ws.getHttpStatus
    [Ws.mkErr "no such cell" (Some "NOT_FOUND"%string);
     Ws.mkErr "no connection" (Some "DB"%string)] = 500.
Proof.
  apply (getHttpStatus_server_error_dominates (STATUS := Ws.httpStatus)
           _ (Ws.mkErr "no connection" (Some "DB"%string)));
    [discriminate|simpl; auto|left; reflexivity].
Defined.

Lemma getHttpStatus_defaults_to_bad_request_witness :
  Ws.getHttpStatus
    [Ws.mkErr "no code" None;
     Ws.mkErr "SYNTAX error ..." (Some "SYNTAX"%string)] = 400.
Proof.
  apply (getHttpStatus_defaults_to_bad_request (STATUS := Ws.httpStatus)
           [Ws.mkErr "no code" None;
            Ws.mkErr "SYNTAX error ..." (Some "SYNTAX"%string)]);
    [reflexivity|].
  intros err code [<-|[<-|[]]]; simpl; [discriminate|].
  intros [= <-]. reflexivity.
Defined.

Lemma getHttpStatus_first_known_code_witness :
  Ws.getHttpStatus
    ([Ws.mkErr "SYNTAX error ..." (Some "SYNTAX"%string)] ++
     Ws.mkErr "no such cell" (Some "NOT_FOUND"%string) ::
     [Ws.mkErr "taken" (Some "EXISTS"%string)]) = 404.
Proof.
  apply (getHttpStatus_first_known_code (STATUS := Ws.httpStatus)
           _ _ _ "NOT_FOUND"%string 404);
    [reflexivity|reflexivity| |reflexivity|reflexivity|].
  - intros e c [<-|[]]; simpl. intros [= <-]. reflexivity.
  - intros e [<-|[]]. discriminate.
Defined.
End StatusRuns.

Section PageRuns.

Lemma clearCellData_empties_witness :
  Forall2
    (fun cell cell' =>
       Client.id cell' = Client.id cell /\
       Client.textContent cell' = EmptyString /\
       Client.getAttribute cell' "data-expr" = None /\
       Client.getAttribute cell' "data-value" = None /\
       (forall name,
           name <> "data-expr"%string -> name <> "data-value"%string ->
           Client.getAttribute cell' name = Client.getAttribute cell name) /\
       Client.textContent (snd (Client.focusCell cell')) = EmptyString)
    [Client.mkCell "b1" "6"
       [("class", "cell"); ("data-expr", "a1+1"); ("data-value", "6")]%string]
    (Client.clearCellData
       [Client.mkCell "b1" "6"
          [("class", "cell"); ("data-expr", "a1+1");
           ("data-value", "6")]%string]).
Proof.
  apply clearCellData_empties.
  repeat constructor; simpl; intuition discriminate.
Defined.
End PageRuns.

(** * Runs on the second parser *)

Section WideRuns.
Local Open Scope float_scope.
Local Existing Instance Wide.parser.

Lemma Wide_keeps_contract : keeps_contract (P := Wide.parser).
Proof.
  intros expr cellId val. simpl. unfold Wide.parseText.
  repeat match goal with
         | |- context [String.eqb expr ?s] => destruct (String.eqb expr s)
         end; intros [= <-]; reflexivity.
Qed.





Lemma eval_throws_only_on_unevaluable_witness :
  fst (eval 5 "d1" "x1+a1" Wide.seven_edits) = OutOfFuel /\
  (forall e, fst (eval 5 "d1" "x1+a1" Wide.seven_edits) <> Throw e).
Proof.
  split; [reflexivity|]. intros e. unfold Wide.seven_edits.
  apply (proj2 (eval_throws_only_on_unevaluable (P := Wide.parser))
           Wide_keeps_contract).
Defined.
End WideRuns.
